(** * Drastic_Display_Final.py: a shallow embedding of the Plex kiosk display

    The program polls a Plex server for the sessions being played and the
    recently added library entries, draws one screen per media item with
    pygame, then a clock screen, and repeats until the window is closed or
    Escape is pressed.

    Pure helpers ([wrap_text]) are plain functions.  Everything that talks to
    the outside (the Plex server, HTTP, image decoding, the pygame event
    queue, the clock, the window manager) goes through an explicit [World] of
    answers and a state-and-exception monad [M]: the state holds the number
    of outside calls made so far and the log of what the program did to the
    display, and a Python exception is the outcome [Raise].  The [print]
    calls of the source write to the console only and are left out. *)

From Stdlib Require Import List String Ascii ZArith QArith Bool Lia.
From Stdlib Require Import DecimalString.
Import ListNotations.

Local Open Scope string_scope.
Local Open Scope Z_scope.

(** ** Python values *)

(** The values found in the media-item dictionaries and in the optional
    attributes of the Plex objects: [None], a [str] or an [int]. *)
Inductive PyVal : Type :=
| VNone : PyVal
| VStr : string -> PyVal
| VInt : Z -> PyVal.

(** Python truthiness: [None], the empty string and [0] are false. *)
Definition truthy (v : PyVal) : bool :=
  match v with
  | VNone => false
  | VStr s => negb (String.eqb s "")
  | VInt z => negb (Z.eqb z 0)
  end.

(** [a or b]: the first operand when it is truthy, else the second. *)
Definition py_or (a b : PyVal) : PyVal := if truthy a then a else b.

(** An attribute that is a [str] or [None], as the art, thumbnail and
    summary attributes of the Plex objects are. *)
Definition PyStr : Type := option string.

Definition truthy_str (a : PyStr) : bool :=
  match a with
  | Some s => negb (String.eqb s "")
  | None => false
  end.

(** [a or b] on such attributes. *)
Definition str_or (a b : PyStr) : PyStr := if truthy_str a then a else b.

(** The attribute as a dictionary value. *)
Definition of_str (a : PyStr) : PyVal :=
  match a with
  | Some s => VStr s
  | None => VNone
  end.


(** [str(v)], as an f-string formats a value. *)
Definition py_str (v : PyVal) : string :=
  match v with
  | VNone => "None"
  | VStr s => s
  | VInt z => NilZero.string_of_int (Z.to_int z)
  end.

(** [l[:n]]: the first [n] elements, or all but the last [-n] when [n] is
    negative. *)
Definition py_slice_to {A : Type} (n : Z) (l : list A) : list A :=
  if 0 <=? n then firstn (Z.to_nat n) l
  else firstn (List.length l - Z.to_nat (- n))%nat l.

(** A dictionary literal with distinct string keys, in source order. *)
Definition Dict : Type := list (string * PyVal).

(** [d.get(k)], with [None] standing for a missing key. *)
Fixpoint dict_get (k : string) (d : Dict) : option PyVal :=
  match d with
  | [] => None
  | (k', v) :: d' => if String.eqb k k' then Some v else dict_get k d'
  end.

(** [k in d]. *)
Definition dict_has (k : string) (d : Dict) : bool :=
  match dict_get k d with Some _ => true | None => false end.

(** [d.get(k, default)]. *)
Definition dict_get_default (k : string) (default : PyVal) (d : Dict) : PyVal :=
  match dict_get k d with Some v => v | None => default end.

(** ** TextLayout: [wrap_text] *)

(** [text.split(' ')]: the pieces between single space characters; a text of
    [n] spaces has [n + 1] pieces, some of them possibly empty. *)
Fixpoint split_space (s : string) : list string :=
  match s with
  | EmptyString => [EmptyString]
  | String c s' =>
      if Ascii.eqb c " "%char then EmptyString :: split_space s'
      else match split_space s' with
           | [] => [String c EmptyString]
           | w :: ws => String c w :: ws
           end
  end.

(** The [for word in words] loop of [wrap_text]; [measure s] is
    [font.size(s)[0]].  The state of the loop is [lines] and [current_line]. *)
Fixpoint wrap_loop (measure : string -> Z) (max_width : Z)
    (words : list string) (lines : list string) (current_line : string)
    : list string * string :=
  match words with
  | [] => (lines, current_line)
  | word :: words' =>
      let test_line := current_line ++ word ++ " " in
      if measure test_line <? max_width
      then wrap_loop measure max_width words' lines test_line
      else wrap_loop measure max_width words' (lines ++ [current_line]) (word ++ " ")
  end.

(** [wrap_text(text, font, max_width)]; [None] is an absent text. *)
Definition wrap_text (text : option string) (measure : string -> Z)
    (max_width : Z) : list string :=
  match text with
  | None => []
  | Some EmptyString => []
  | Some s =>
      let '(lines, current_line) :=
        wrap_loop measure max_width (split_space s) [] "" in
      if String.eqb current_line "" then lines else lines ++ [current_line]
  end.

(** [' '.join(lines)]. *)
Fixpoint join_space (lines : list string) : string :=
  match lines with
  | [] => ""
  | [l] => l
  | l :: ls => l ++ " " ++ join_space ls
  end.

(** The words of a text as a reader counts them: the non-empty pieces
    between spaces. *)
Definition words_of (s : string) : list string :=
  filter (fun w => negb (String.eqb w "")) (split_space s).

(** A run of words as [wrap_text] lays it out: every word followed by one
    space. *)
Fixpoint spaced (ws : list string) : string :=
  match ws with
  | [] => ""
  | w :: ws' => w ++ " " ++ spaced ws'
  end.

(** A string without a space character: what [split(' ')] calls a word. *)
Fixpoint no_space (s : string) : bool :=
  match s with
  | EmptyString => true
  | String c s' => negb (Ascii.eqb c " "%char) && no_space s'
  end.

(** A measure for the examples: ten pixels a character. *)
Definition ten_px (s : string) : Z := 10 * Z.of_nat (String.length s).

(** ** Exceptions, state and the monad of the effectful code *)

Inductive Exc : Type :=
| TypeError : Exc
| KeyError : string -> Exc
| ValueError : Exc
| AttributeError : Exc
| LibraryError : string -> Exc.  (* raised inside plexapi, requests, PIL or pygame *)

Definition Color : Type := (Z * Z * Z)%type.

Inductive Font : Type := font | title_font | large_font.

(** A decoded PIL image and a pygame surface built from one. *)
Record Image : Type := { image_size : Z * Z; image_mode : string; image_raw : string }.
Record Surface : Type := { surface_bytes : string; surface_size : Z * Z; surface_mode : string }.

Inductive Drawable : Type :=
| DSurface (s : Surface) (width height : Z)            (* transform.scale(s, (w, h)) *)
| DOverlay (width height alpha : Z) (c : Color)        (* the translucent Surface *)
| DText (f : Font) (text : string) (c : Color).        (* f.render(text, True, c) *)

Inductive PgEvent : Type :=
| QUIT : PgEvent
| KEYDOWN (key : Z) : PgEvent
| OtherEvent (type : Z) : PgEvent.

Definition K_ESCAPE : Z := 27.

(** Which of the two drawing functions called [pygame.display.update()]. *)
Inductive ScreenKind : Type :=
| SlideScreen (media_item : Dict)
| IdleScreen.

(** What the program does to the outside, in order. *)
Inductive Event : Type :=
| EvFill (c : Color)                       (* screen.fill *)
| EvBlit (d : Drawable) (x y : Z)          (* screen.blit *)
| EvRestore                                (* win.restore() *)
| EvSetForeground (hwnd : Z)               (* user32.SetForegroundWindow *)
| EvUpdate (k : ScreenKind)                (* pygame.display.update() *)
| EvSleep (seconds : Q)                    (* time.sleep *)
| EvPoll (events : list PgEvent)           (* what pygame.event.get() returned *)
| EvQuit.                                  (* pygame.quit() *)

Record State : Type := { calls : nat; log : list Event }.

Inductive Outcome (A : Type) : Type :=
| Ok (a : A) (s : State)
| Raise (e : Exc) (s : State).
Arguments Ok {A} a s.
Arguments Raise {A} e s.

Definition M (A : Type) : Type := State -> Outcome A.

Definition ret {A : Type} (a : A) : M A := fun s => Ok a s.

Definition bind {A B : Type} (m : M A) (f : A -> M B) : M B :=
  fun s => match m s with
           | Ok a s' => f a s'
           | Raise e s' => Raise e s'
           end.

Definition raise {A : Type} (e : Exc) : M A := fun s => Raise e s.

(** [try: m  except Exception as e: h e]. *)
Definition try_except {A : Type} (m : M A) (h : Exc -> M A) : M A :=
  fun s => match m s with
           | Ok a s' => Ok a s'
           | Raise e s' => h e s'
           end.

(** A fallible step that does not touch the outside. *)
Definition lift {A : Type} (r : Exc + A) : M A :=
  match r with inl e => raise e | inr a => ret a end.

(** One call to the outside: the answer may depend on how many calls came
    before it. *)
Definition ext {A : Type} (f : nat -> Exc + A) : M A :=
  fun s => let s' := {| calls := S (calls s); log := log s |} in
           match f (calls s) with
           | inl e => Raise e s'
           | inr a => Ok a s'
           end.

Definition emit (e : Event) : M unit :=
  fun s => Ok tt {| calls := calls s; log := log s ++ [e] |}.

Notation "x <- m ;; k" := (bind m (fun x => k))
  (at level 61, m at next level, right associativity).
Notation "' pat <- m ;; k" := (bind m (fun x => match x with pat => k end))
  (at level 61, pat pattern, m at next level, right associativity).
Notation "m ;;; k" := (bind m (fun _ => k))
  (at level 61, right associativity).

(** ** The Plex objects and the outside world *)

Record Session : Type := {
  session_type : string;
  session_title : string;
  session_summary : PyStr;
  grandparentTitle : PyStr;
  grandparentArt : PyStr;
  parentArt : PyStr;
  session_artUrl : PyStr;
  grandparentThumb : PyStr;
  session_thumb : PyStr;
  session_thumbUrl : PyStr;
  viewOffset : Z;
  duration : Z;
  usernames : option (list string);       (* [None]: no such attribute *)
  transcodeSessions : list Z
}.

Record LibraryEntry : Type := {
  item_type : string;
  item_title : string;
  item_summary : PyStr;
  item_thumbUrl : PyStr;
  item_artUrl : PyStr;
  item_ratingKey : PyVal;
  item_parentRatingKey : PyVal
}.

Record Show : Type := {
  show_title : string;
  show_summary : PyStr;
  show_artUrl : PyStr;
  show_ratingKey : PyVal
}.

Definition Season : Type := Z.
Definition Episode : Type := Z.

(** A library section, known by its name. *)
Definition LibrarySection : Type := string.

Record Response : Type := { status_code : Z; content : string }.
Record Window : Type := { isMinimized : bool }.

(** The configuration read at start-up and the answers of everything the
    program calls but does not define.  An answer indexed by [nat] is the one
    given to the call made after that many earlier calls. *)
Record World : Type := {
  DISPLAY_TIME : Q;
  NUM_RECENT_ITEMS : Z;
  TIME_FORMAT : string;
  PLEX_TOKEN : string;
  plex_sessions : nat -> Exc + list Session;
  plex_recentlyAdded : nat -> Exc + list LibraryEntry;
  plex_fetchItem : nat -> PyVal -> Exc + Show;
  show_seasons : nat -> Show -> Exc + list Season;
  season_episodes : nat -> Season -> Exc + list Episode;
  plex_transcodeImage : PyStr -> Z -> Z -> PyStr;        (* url, height, width *)
  plex_section : nat -> string -> Exc + LibrarySection;
  section_all : nat -> LibrarySection -> Exc + list LibraryEntry;
  requests_get : nat -> PyVal -> string -> Exc + Response; (* url, X-Plex-Token *)
  Image_open : string -> Exc + Image;
  Image_tobytes : Image -> Exc + string;
  image_fromstring : string -> Z * Z -> string -> Exc + Surface;
  font_size : Font -> string -> Z * Z;
  datetime_now : nat -> Q;
  strftime : Q -> string -> string;
  pygame_event_get : nat -> list PgEvent;
  getWindowsWithTitle : nat -> string -> list Window;
  FindWindowW : nat -> string -> Z
}.

(** [a + b] on attributes that are a [str] or [None]: [None] on either
    side is a [TypeError]. *)
Definition str_add (a b : PyStr) : Exc + string :=
  match a, b with
  | Some x, Some y => inr (x ++ y)
  | _, _ => inl TypeError
  end.

(** [d[k]]. *)
Definition dict_item (k : string) (d : Dict) : M PyVal :=
  match dict_get k d with
  | Some v => ret v
  | None => raise (KeyError k)
  end.

(** The text argument of [Font.render]: a string, or [None], which is
    rendered as the empty text; a value of another type is a
    [TypeError]. *)
Definition as_text (v : PyVal) : M string :=
  match v with
  | VStr s => ret s
  | VNone => ret ""
  | VInt _ => raise TypeError
  end.

Definition white : Color := (255, 255, 255).
Definition black : Color := (0, 0, 0).

(** [time.sleep(seconds)]; a negative length is a [ValueError]. *)
Definition time_sleep (seconds : Q) : M unit :=
  if Qle_bool 0 seconds then emit (EvSleep seconds) else raise ValueError.

(** The body of the event loop in [main_loop]: window close and Escape
    clear [running]. *)
Fixpoint handle_events (events : list PgEvent) (running : bool) : bool :=
  match events with
  | [] => running
  | QUIT :: rest => handle_events rest false
  | KEYDOWN key :: rest =>
      if key =? K_ESCAPE then handle_events rest false
      else handle_events rest running
  | OtherEvent _ :: rest => handle_events rest running
  end.

Section Program.

Variable w : World.

(** *** get_currently_playing *)

(** The body of [for session in plex.sessions()]: the dictionary appended
    to [now_playing]. *)
Definition session_entry (session : Session) : M Dict :=
  '(fanart_url, poster_url, description) <-
    (if String.eqb (session_type session) "episode"
     then
       head <- lift (str_add (grandparentTitle session) (Some ": "));;
       description <- lift (str_add (Some head) (session_summary session));;
       ret (str_or (grandparentArt session)
                   (str_or (parentArt session) (session_artUrl session)),
            str_or (grandparentThumb session) (session_thumb session),
            Some description)
     else
       ret (str_or (session_artUrl session) (session_thumbUrl session),
            session_thumbUrl session,
            session_summary session));;
  let current_position := (inject_Z (viewOffset session) / inject_Z 1000)%Q in
  let duration_s := (inject_Z (duration session) / inject_Z 1000)%Q in
  let time_remaining := (duration_s - current_position)%Q in
  now <- ext (fun n => inr (datetime_now w n));;
  let estimated_end_time := (now + time_remaining)%Q in
  let estimated_end_time_str := strftime w estimated_end_time "%H:%M:%S" in
  let user :=
    match usernames session with
    | Some (u :: _) => u
    | _ => "Unknown User"
    end in
  let play_status :=
    match transcodeSessions session with
    | [] => "Direct Play"
    | _ :: _ => "Transcoding"
    end in
  let transcode_fanart_url := plex_transcodeImage w fanart_url 480 800 in
  let transcode_poster_url := plex_transcodeImage w poster_url 300 200 in
  ret [("title", VStr (session_title session));
       ("user", VStr user);
       ("transcode", VStr play_status);
       ("poster_url", of_str transcode_poster_url);
       ("fanart_url", of_str transcode_fanart_url);
       ("description", of_str description);
       ("end_time", VStr estimated_end_time_str)].

Fixpoint sessions_loop (sessions : list Session) (now_playing : list Dict)
    : M (list Dict) :=
  match sessions with
  | [] => ret now_playing
  | session :: rest =>
      entry <- session_entry session;;
      sessions_loop rest (now_playing ++ [entry])
  end.

Definition get_currently_playing : M (list Dict) :=
  sessions <- ext (plex_sessions w);;
  sessions_loop sessions [].

(** *** get_last_added *)

(** [sum(len(season.episodes()) for season in seasons)]. *)
Fixpoint sum_episodes (seasons : list Season) (total : Z) : M Z :=
  match seasons with
  | [] => ret total
  | season :: rest =>
      episodes <- ext (fun n => season_episodes w n season);;
      sum_episodes rest (total + Z.of_nat (List.length episodes))
  end.

Definition show_dict (title : string) (poster_url fanart_url description : PyStr)
    (num_seasons num_episodes : Z) : Dict :=
  [("title", VStr title);
   ("poster_url", of_str poster_url);
   ("fanart_url", of_str fanart_url);
   ("description", of_str description);
   ("seasons", VInt num_seasons);
   ("episodes", VInt num_episodes);
   ("type", VStr "show")].

Definition movie_dict (title : string) (poster_url fanart_url description : PyStr)
    : Dict :=
  [("title", VStr title);
   ("poster_url", of_str poster_url);
   ("fanart_url", of_str fanart_url);
   ("description", of_str description);
   ("type", VStr "movie")].

(** The two counts of a show, as the [try] body takes them: [seasons()]
    is asked twice, [episodes()] once a season. *)
Definition count_seasons_episodes (show : Show) : M (Z * Z) :=
  seasons <- ext (fun n => show_seasons w n show);;
  let num_seasons := Z.of_nat (List.length seasons) in
  seasons' <- ext (fun n => show_seasons w n show);;
  num_episodes <- sum_episodes seasons' 0;;
  ret (num_seasons, num_episodes).

(** The key handed to [plex.fetchItem]. *)
Definition show_key (item : LibraryEntry) : PyVal :=
  if String.eqb (item_type item) "season"
  then item_parentRatingKey item
  else item_ratingKey item.

(** The ['season'] / ['show'] branch.  The source has one [try] whose body
    assigns [fanart_url = show.artUrl] before it counts seasons: a failure
    of [fetchItem] leaves the entry's own art in [fanart_url], a later
    failure leaves the show's.  The two handlers below are that one
    [except] clause at these two points. *)
Definition show_entry (item : LibraryEntry) : M Dict :=
  let poster_url := item_thumbUrl item in
  let fanart_url := item_artUrl item in
  let fallback (fanart_url : PyStr) : M Dict :=
    ret (show_dict (item_title item) poster_url fanart_url
           (Some "Description not available") 0 0) in
  try_except
    (show <- ext (fun n => plex_fetchItem w n (show_key item));;
     let title := show_title show in
     let description := show_summary show in
     let fanart_url := show_artUrl show in
     try_except
       ('(num_seasons, num_episodes) <- count_seasons_episodes show;;
        ret (show_dict title poster_url fanart_url description
               num_seasons num_episodes))
       (fun _ => fallback fanart_url))
    (fun _ => fallback fanart_url).

Fixpoint last_added_loop (items : list LibraryEntry) (recently_added : list Dict)
    : M (list Dict) :=
  match items with
  | [] => ret recently_added
  | item :: rest =>
      if String.eqb (item_type item) "season" || String.eqb (item_type item) "show"
      then
        entry <- show_entry item;;
        last_added_loop rest (recently_added ++ [entry])
      else if String.eqb (item_type item) "movie"
      then
        last_added_loop rest
          (recently_added ++
             [movie_dict (item_title item) (item_thumbUrl item)
                (item_artUrl item) (item_summary item)])
      else last_added_loop rest recently_added
  end.

Definition get_last_added : M (list Dict) :=
  let num_items := NUM_RECENT_ITEMS w in
  entries <- ext (plex_recentlyAdded w);;
  last_added_loop (py_slice_to num_items entries) [].

(** *** fetch_poster *)

Definition fetch_poster (url : PyVal) : M (option Surface) :=
  response <- ext (fun n => requests_get w n url (PLEX_TOKEN w));;
  if status_code response =? 200
  then
    let image_data := content response in
    image <- lift (Image_open w image_data);;
    bytes <- lift (Image_tobytes w image);;
    surface <- lift (image_fromstring w bytes (image_size image) (image_mode image));;
    ret (Some surface)
  else ret None.

(** *** display_info *)

Fixpoint blit_lines (lines : list string) (y_position : Z) : M Z :=
  match lines with
  | [] => ret y_position
  | line :: rest =>
      emit (EvBlit (DText font line white) 300 y_position);;;
      blit_lines rest (y_position + 30)
  end.

(** [wrap_text(description, font, 500)] on a dictionary value: an integer
    has no [split]. *)
Definition wrap_description (description : PyVal) : M (list string) :=
  let measure := fun s => fst (font_size w font s) in
  match description with
  | VNone => ret (wrap_text None measure 500)
  | VStr s => ret (wrap_text (Some s) measure 500)
  | VInt z => if z =? 0 then ret [] else raise AttributeError
  end.

Definition is_show_or_season (media_item : Dict) : bool :=
  match dict_get "type" media_item with
  | Some (VStr t) => String.eqb t "show" || String.eqb t "season"
  | _ => false
  end.

Definition display_info (media_item : Dict) : M unit :=
  emit (EvFill black);;;
  fanart_url <- dict_item "fanart_url" media_item;;
  fanart <- fetch_poster fanart_url;;
  match fanart with
  | Some fanart => emit (EvBlit (DSurface fanart 800 480) 0 0)
  | None => emit (EvFill black)
  end;;;
  emit (EvBlit (DOverlay 800 480 128 black) 0 0);;;
  poster_url <- dict_item "poster_url" media_item;;
  poster <- fetch_poster poster_url;;
  match poster with
  | Some poster => emit (EvBlit (DSurface poster 200 300) 50 90)
  | None => ret tt
  end;;;
  let shadow_offset := 2 in
  title <- dict_item "title" media_item;;
  title <- as_text title;;
  emit (EvBlit (DText title_font title black) (300 + shadow_offset) (90 + shadow_offset));;;
  emit (EvBlit (DText title_font title white) 300 90);;;
  let description :=
    py_or (dict_get_default "description" (VStr "No description available") media_item)
          (VStr "No description available") in
  description_lines <- wrap_description description;;
  let description_lines := firstn 5 description_lines in
  y_position <- blit_lines description_lines 140;;
  y_position <-
    (if is_show_or_season media_item
     then
       emit (EvBlit (DText font
               ("Seasons: " ++ py_str (dict_get_default "seasons" (VStr "Unknown") media_item))
               white) 300 (y_position + 20));;;
       emit (EvBlit (DText font
               ("Episodes: " ++ py_str (dict_get_default "episodes" (VStr "Unknown") media_item))
               white) 300 (y_position + 50));;;
       ret (y_position + 80)
     else ret y_position);;
  (if dict_has "user" media_item && dict_has "transcode" media_item
   then
     emit (EvBlit (DText font
             ("User: " ++ py_str (dict_get_default "user" (VStr "Unknown User") media_item))
             white) 300 (y_position + 20));;;
     emit (EvBlit (DText font
             ("Status: " ++ py_str (dict_get_default "transcode" (VStr "Error") media_item))
             white) 300 (y_position + 50))
   else ret tt);;;
  emit (EvUpdate (SlideScreen media_item)).

(** *** display_time_and_info *)

Definition display_time_and_info : M unit :=
  now <- ext (fun n => inr (datetime_now w n));;
  let current_time := strftime w now (TIME_FORMAT w) in
  let '(text_w, text_h) := font_size w large_font current_time in
  let text_x := 800 / 2 - text_w / 2 in
  let text_y := 480 / 2 - text_h / 2 in
  movies_section <- ext (fun n => plex_section w n "Movies");;
  tv_shows_section <- ext (fun n => plex_section w n "TV Shows");;
  movies <- ext (fun n => section_all w n movies_section);;
  tv_shows <- ext (fun n => section_all w n tv_shows_section);;
  let num_movies := Z.of_nat (List.length movies) in
  let num_tv_shows := Z.of_nat (List.length tv_shows) in
  now_playing <- get_currently_playing;;
  let num_currently_playing := Z.of_nat (List.length now_playing) in
  emit (EvFill black);;;
  emit (EvBlit (DText large_font current_time white) text_x text_y);;;
  emit (EvBlit (DText font ("Total Movies: " ++ py_str (VInt num_movies)) white) 50 400);;;
  emit (EvBlit (DText font ("Total TV Shows: " ++ py_str (VInt num_tv_shows)) white) 300 400);;;
  emit (EvBlit (DText font
          ("Currently Playing: " ++ py_str (VInt num_currently_playing)) white) 550 400);;;
  emit (EvUpdate IdleScreen).

(** *** bring_window_to_front *)

Definition bring_window_to_front : M unit :=
  windows <- ext (fun n => inr (getWindowsWithTitle w n "Plex Now Playing"));;
  match windows with
  | win :: _ =>
      (if isMinimized win then emit EvRestore else ret tt);;;
      hwnd <- ext (fun n => inr (FindWindowW w n "Plex Now Playing"));;
      if hwnd =? 0 then ret tt else emit (EvSetForeground hwnd)
  | [] => ret tt
  end.

(** *** main_loop *)

(** [for media_item in media_to_display]: draw, sleep, then drain the event
    queue.  [running] is only a flag: nothing leaves the loop early. *)
Fixpoint rotate (media_to_display : list Dict) (running : bool) : M bool :=
  match media_to_display with
  | [] => ret running
  | media_item :: rest =>
      display_info media_item;;;
      time_sleep (DISPLAY_TIME w);;;
      events <- ext (fun n => inr (pygame_event_get w n));;
      emit (EvPoll events);;;
      rotate rest (handle_events events running)
  end.

(** One pass through the body of [while running]; the result is [running]
    as the next test of the loop condition finds it. *)
Definition cycle : M bool :=
  bring_window_to_front;;;
  now_playing <- get_currently_playing;;
  media_to_display <-
    (match now_playing with
     | _ :: _ => ret now_playing
     | [] => get_last_added
     end);;
  running <- rotate media_to_display true;;
  display_time_and_info;;;
  time_sleep (DISPLAY_TIME w);;;
  ret running.

(** [while running: ...] for at most [fuel] passes; [true] when the loop
    was left, [false] when the passes ran out first. *)
Fixpoint while_running (fuel : nat) : M bool :=
  match fuel with
  | O => ret false
  | S fuel' =>
      running <- cycle;;
      if running then while_running fuel' else ret true
  end.

Definition main_loop (fuel : nat) : M bool :=
  left_loop <- while_running fuel;;
  if left_loop then emit EvQuit;;; ret true else ret false.

End Program.

(** The start of the process: nothing called, nothing drawn. *)
Definition start : State := {| calls := 0; log := [] |}.

(** The part of the log a viewer experiences: frames presented, dwells,
    event checks and the closing of the window. *)
Definition is_timeline (e : Event) : bool :=
  match e with
  | EvUpdate _ | EvSleep _ | EvPoll _ | EvQuit => true
  | _ => false
  end.

Definition timeline (l : list Event) : list Event := filter is_timeline l.

(** Frames and dwells only. *)
Definition is_screen_or_dwell (e : Event) : bool :=
  match e with
  | EvUpdate _ | EvSleep _ => true
  | _ => false
  end.

Definition screens_and_dwells (l : list Event) : list Event :=
  filter is_screen_or_dwell l.

Definition is_slide (e : Event) : bool :=
  match e with EvUpdate (SlideScreen _) => true | _ => false end.

Definition is_idle (e : Event) : bool :=
  match e with EvUpdate IdleScreen => true | _ => false end.

Definition is_dwell (e : Event) : bool :=
  match e with EvSleep _ => true | _ => false end.

(** A drained event queue that holds a window close or an Escape press. *)
Definition cancels (events : list PgEvent) : bool :=
  existsb (fun e => match e with
                    | QUIT => true
                    | KEYDOWN key => key =? K_ESCAPE
                    | OtherEvent _ => false
                    end) events.

(** The entry types for which [get_last_added] has a branch. *)
Definition supported (item : LibraryEntry) : bool :=
  String.eqb (item_type item) "season" || String.eqb (item_type item) "show"
  || String.eqb (item_type item) "movie".

(** The state after one more call to the outside. *)
Definition called (s : State) : State := {| calls := S (calls s); log := log s |}.

(** The try body of the ['season'] / ['show'] branch raises: [fetchItem]
    does, or one of the [seasons()] / [episodes()] calls after it. *)
Definition resolution_fails (w : World) (item : LibraryEntry) (s : State) : Prop :=
  match plex_fetchItem w (calls s) (show_key item) with
  | inl _ => True
  | inr show => exists e s', count_seasons_episodes w show (called s) = Raise e s'
  end.

(** What one slide of a rotation leaves on the timeline. *)
Definition slide_dwell_poll (seconds : Q) (slide_poll : Dict * list PgEvent)
    : list Event :=
  [EvUpdate (SlideScreen (fst slide_poll)); EvSleep seconds; EvPoll (snd slide_poll)].

Definition slide_dwell (seconds : Q) (slide : Dict) : list Event :=
  [EvUpdate (SlideScreen slide); EvSleep seconds].

(** ** Vocabulary of the proofs *)

(** The fanart of an episode session, read off the dictionary made for it:
    the transcoded url of the first non-empty of the show's art, the
    season's art and the episode's own art. *)
Definition fanart_by_priority (w : World) (session : Session) (entry : Dict) : Prop :=
  session_type session = "episode" ->
  exists chosen,
    dict_get "fanart_url" entry = Some (of_str (plex_transcodeImage w chosen 480 800)) /\
    (truthy_str (grandparentArt session) = true -> chosen = grandparentArt session) /\
    (truthy_str (grandparentArt session) = false ->
     truthy_str (parentArt session) = true -> chosen = parentArt session) /\
    (truthy_str (grandparentArt session) = false ->
     truthy_str (parentArt session) = false -> chosen = session_artUrl session).

(** An episode session whose description can be built: neither the show
    title nor the summary is [None]. *)
Definition describable (session : Session) : Prop :=
  session_type session = "episode" ->
  grandparentTitle session <> None /\ session_summary session <> None.


Definition outcome_state {A : Type} (o : Outcome A) : State :=
  match o with
  | Ok _ s => s
  | Raise _ s => s
  end.

(** [m] leaves the log alone, whether it returns or raises. *)
Definition silent {A : Type} (m : M A) : Prop :=
  forall s, log (outcome_state (m s)) = log s.

(** [m] returns, never raises, and what it adds to the timeline, together
    with its result, satisfies [P]. *)
Definition yields {A : Type} (m : M A) (P : A -> list Event -> Prop) : Prop :=
  forall s, exists a s' evs,
    m s = Ok a s' /\ timeline (log s') = (timeline (log s) ++ evs)%list /\ P a evs.

(** A dictionary [display_info] can draw: it has the two urls and a title
    that is a string, and its description is not a number. *)
Definition slide_ok (d : Dict) : Prop :=
  (exists v, dict_get "fanart_url" d = Some v) /\
  (exists v, dict_get "poster_url" d = Some v) /\
  (exists t, dict_get "title" d = Some (VStr t)) /\
  (forall z, dict_get "description" d <> Some (VInt z)).

(** The slide [get_last_added] makes of a supported entry. *)
Definition entry_of (item : LibraryEntry) (d : Dict) : Prop :=
  if String.eqb (item_type item) "season" || String.eqb (item_type item) "show"
  then exists title fanart_url description num_seasons num_episodes,
         d = show_dict title (item_thumbUrl item) fanart_url description
               num_seasons num_episodes
  else d = movie_dict (item_title item) (item_thumbUrl item)
             (item_artUrl item) (item_summary item).

(** Every image request is answered, and an answer with status 200
    decodes. *)
Definition images_load (w : World) : Prop :=
  forall n url, exists response,
    requests_get w n url (PLEX_TOKEN w) = inr response /\
    (status_code response = 200 ->
     exists image bytes surface,
       Image_open w (content response) = inr image /\
       Image_tobytes w image = inr bytes /\
       image_fromstring w bytes (image_size image) (image_mode image)
         = inr surface).

(** The library sections of the idle screen can be counted. *)
Definition sections_load (w : World) : Prop :=
  (forall n name, exists section, plex_section w n name = inr section) /\
  (forall n section, exists items, section_all w n section = inr items).

(** A world in which the server always answers [sessions()] with
    [sessions], whose descriptions can be built, and [recentlyAdded()] with
    [entries], nothing that the drawing code calls fails, and the dwell is
    not negative. *)
Definition steady (w : World) (sessions : list Session)
    (entries : list LibraryEntry) : Prop :=
  (forall n, plex_sessions w n = inr sessions) /\
  Forall describable sessions /\
  (forall n, plex_recentlyAdded w n = inr entries) /\
  images_load w /\ sections_load w /\
  Qle_bool 0 (DISPLAY_TIME w) = true.

(** ** Six statements of the design document, as it words them *)

(** A line is within the limit, or it holds a single word that is wider
    than the limit by itself. *)
Definition fits_or_wide_word (measure : string -> Z) (max_width : Z)
    (text line : string) : Prop :=
  measure line <= max_width \/
  exists word,
    In word (split_space text) /\
    (line = word \/ line = word ++ " ") /\
    max_width < measure word.

Definition lines_fit (measure : string -> Z) (max_width : Z) (text : string) : Prop :=
  forall line,
    In line (wrap_text (Some text) measure max_width) ->
    fits_or_wide_word measure max_width text line.

(** The last character of the line is a space and the one before it is
    not. *)
Definition ends_with_one_space (line : string) : Prop :=
  exists body c, line = body ++ String c " " /\ c <> " "%char.

Definition lines_end_with_one_space (measure : string -> Z) (max_width : Z)
    (text : string) : Prop :=
  forall line,
    In line (wrap_text (Some text) measure max_width) ->
    line <> "" ->
    ends_with_one_space line.

(** Whatever the url, [fetch_poster] hands back a value. *)
Definition fetch_never_raises (w : World) : Prop :=
  forall url s, exists image s', fetch_poster w url s = Ok image s'.

(** A pass of the loop ends with nothing but the idle screen shown, and
    the loop goes on. *)
Definition falls_back_to_idle (w : World) (s : State) : Prop :=
  exists s',
    cycle w s = Ok true s' /\
    screens_and_dwells (log s') =
      (screens_and_dwells (log s)
       ++ [EvUpdate IdleScreen; EvSleep (DISPLAY_TIME w)])%list.

(** Once an event check has found a cancellation, no further frame is
    presented and no further dwell is slept. *)
Definition stops_at_check (evs : list Event) : Prop :=
  forall before events after,
    evs = (before ++ EvPoll events :: after)%list ->
    cancels events = true ->
    Forall (fun e => is_screen_or_dwell e = false) after.

Definition cancellation_is_prompt (w : World) : Prop :=
  forall fuel left_loop s',
    main_loop w fuel start = Ok left_loop s' ->
    stops_at_check (timeline (log s')).

(** A pass of the loop shows one slide for each of the [entries] the
    catalog returned, then the idle screen, each for the dwell time. *)
Definition shows_every_entry (w : World) (entries : list LibraryEntry)
    (s : State) : Prop :=
  exists slides running s',
    cycle w s = Ok running s' /\
    List.length slides = List.length entries /\
    screens_and_dwells (log s') =
      (screens_and_dwells (log s)
       ++ flat_map (slide_dwell (DISPLAY_TIME w)) slides
       ++ [EvUpdate IdleScreen; EvSleep (DISPLAY_TIME w)])%list.

(** ** Worlds for the examples *)

Definition movie_entry (title : string) : LibraryEntry :=
  {| item_type := "movie"; item_title := title;
     item_summary := Some ("About " ++ title);
     item_thumbUrl := Some ("/thumb/" ++ title);
     item_artUrl := Some ("/art/" ++ title);
     item_ratingKey := VInt 1; item_parentRatingKey := VNone |}.

Definition season_entry (title : string) : LibraryEntry :=
  {| item_type := "season"; item_title := title;
     item_summary := Some "";
     item_thumbUrl := Some ("/thumb/" ++ title);
     item_artUrl := Some ("/art/" ++ title);
     item_ratingKey := VInt 21; item_parentRatingKey := VInt 20 |}.

Definition episode_entry (title : string) : LibraryEntry :=
  {| item_type := "episode"; item_title := title;
     item_summary := Some ("About " ++ title);
     item_thumbUrl := Some ("/thumb/" ++ title);
     item_artUrl := Some ("/art/" ++ title);
     item_ratingKey := VInt 31; item_parentRatingKey := VInt 21 |}.

Definition episode_session (grandparent parent own : PyStr) : Session :=
  {| session_type := "episode"; session_title := "Pilot";
     session_summary := Some "It begins.";
     grandparentTitle := Some "The Show";
     grandparentArt := grandparent; parentArt := parent; session_artUrl := own;
     grandparentThumb := Some "/thumb/show"; session_thumb := Some "/thumb/pilot";
     session_thumbUrl := Some "/thumb/pilot";
     viewOffset := 30000; duration := 90000;
     usernames := Some ["ann"]; transcodeSessions := [] |}.

(** A world in which the server answers [sessions()] with [sessions],
    [recentlyAdded()] with [recent], every HTTP request with [get], and the
    event queue holds [events n] at the call numbered [n].  No show can be
    resolved, no image decodes, the library sections are empty and no
    window carries the title. *)
Definition world_of (sessions : Exc + list Session)
    (recent : Exc + list LibraryEntry) (get : Exc + Response)
    (events : nat -> list PgEvent) : World :=
  {| DISPLAY_TIME := 10 # 1;
     NUM_RECENT_ITEMS := 5;
     TIME_FORMAT := "%H:%M";
     PLEX_TOKEN := "token";
     plex_sessions := fun _ => sessions;
     plex_recentlyAdded := fun _ => recent;
     plex_fetchItem := fun _ _ => inl (LibraryError "NotFound");
     show_seasons := fun _ _ => inr [];
     season_episodes := fun _ _ => inr [];
     plex_transcodeImage := fun url _ _ => url;
     plex_section := fun _ name => inr name;
     section_all := fun _ _ => inr [];
     requests_get := fun _ _ _ => get;
     Image_open := fun _ => inl (LibraryError "UnidentifiedImageError");
     Image_tobytes := fun _ => inl (LibraryError "OSError");
     image_fromstring := fun _ _ _ => inl ValueError;
     font_size := fun _ s => (ten_px s, 20);
     datetime_now := fun _ => 0%Q;
     strftime := fun _ _ => "12:00";
     pygame_event_get := events;
     getWindowsWithTitle := fun _ _ => [];
     FindWindowW := fun _ _ => 0 |}.

Definition not_found : Exc + Response := inr {| status_code := 404; content := "" |}.
Definition no_events : nat -> list PgEvent := fun _ => [].

Definition three_movies : list LibraryEntry :=
  [movie_entry "Alien"; movie_entry "Brazil"; movie_entry "Casablanca"].

(** Nothing playing, three movies added, images missing, nobody touches
    the keyboard. *)
Definition calm_world : World :=
  world_of (inr []) (inr three_movies) not_found no_events.

(** The same, but the HTTP request for an image fails to connect. *)
Definition offline_world : World :=
  world_of (inr []) (inr three_movies)
    (inl (LibraryError "ConnectionError")) no_events.

(** The server does not answer [sessions()]. *)
Definition server_down_world : World :=
  world_of (inl (LibraryError "ConnectionError")) (inr three_movies)
    not_found no_events.

(** The window is closed while the first movie is on screen: the event
    check after the first dwell, the sixth call of the process, finds
    [QUIT] in the queue. *)
Definition closing_world : World :=
  world_of (inr []) (inr three_movies) not_found
    (fun n => if Nat.eqb n 5 then [QUIT] else []).

(** The most recent addition is an episode, next to one movie. *)
Definition episode_world : World :=
  world_of (inr []) (inr [episode_entry "Pilot"; movie_entry "Alien"])
    not_found no_events.

(** A season whose show cannot be resolved, followed by a movie. *)
Definition season_world : World :=
  world_of (inr []) (inr [season_entry "Season 1"; movie_entry "Alien"])
    not_found no_events.

(** One episode is being played; only the show has art. *)
Definition playing_world : World :=
  world_of (inr [episode_session (Some "/art/show") None None])
    (inr three_movies) not_found no_events.

(** ** Vocabulary of the further properties *)

(** Whether it returns or raises, [m] adds to the log only events that
    satisfy [Q], and a value it returns satisfies [P]. *)
Definition logs {A : Type} (m : M A) (P : A -> Prop) (Q : Event -> Prop) : Prop :=
  forall s, exists evs,
    log (outcome_state (m s)) = (log s ++ evs)%list /\ Forall Q evs /\
    (forall a s', m s = Ok a s' -> P a).

(** [m] draws with events that satisfy [Q] and, if it gets to its end,
    presents the frame [k] as the last thing it does; if it raises, it has
    presented nothing. *)
Definition frames {A : Type} (m : M A) (Q : Event -> Prop) (k : ScreenKind) : Prop :=
  forall s, exists pre,
    Forall Q pre /\
    match m s with
    | Ok _ s' => log s' = (log s ++ pre ++ [EvUpdate k])%list
    | Raise _ s' => log s' = (log s ++ pre)%list
    end.

(** [m] never returns a value. *)
Definition fails {A : Type} (m : M A) : Prop :=
  forall s a s', m s <> Ok a s'.

(** A fill, or a blit whose top-left corner is where [display_info] puts
    things: no further right than the title shadow, no lower than the last
    row of text. *)
Definition draws_on_screen (e : Event) : Prop :=
  match e with
  | EvFill _ => True
  | EvBlit _ x y => 0 <= x <= 302 /\ 0 <= y <= 420
  | _ => False
  end.

Definition is_drawing (e : Event) : Prop := is_timeline e = false.

Definition not_quit (e : Event) : Prop := e <> EvQuit.

(** An episode session whose description cannot be built. *)
Definition lacks_description (session : Session) : Prop :=
  session_type session = "episode" /\
  (grandparentTitle session = None \/ session_summary session = None).

(** The viewer and the play status in the dictionary of a session, and
    what [display_info] will make of the dictionary: the viewer rows, and
    no show rows. *)
Definition viewer_and_status (session : Session) (d : Dict) : Prop :=
  dict_get "title" d = Some (VStr (session_title session)) /\
  dict_get "user" d =
    Some (VStr match usernames session with
               | Some (u :: _) => u
               | _ => "Unknown User"
               end) /\
  dict_get "transcode" d =
    Some (VStr match transcodeSessions session with
               | [] => "Direct Play"
               | _ :: _ => "Transcoding"
               end) /\
  dict_has "user" d && dict_has "transcode" d = true /\
  is_show_or_season d = false.

(** The poster and the description in the dictionary of a session, and the
    fanart of one that is not an episode. *)
Definition poster_and_description (w : World) (session : Session) (d : Dict) : Prop :=
  if String.eqb (session_type session) "episode"
  then
    dict_get "poster_url" d =
      Some (of_str (plex_transcodeImage w
                      (str_or (grandparentThumb session) (session_thumb session))
                      300 200)) /\
    exists show_title summary,
      grandparentTitle session = Some show_title /\
      session_summary session = Some summary /\
      dict_get "description" d = Some (VStr (show_title ++ ": " ++ summary))
  else
    dict_get "fanart_url" d =
      Some (of_str (plex_transcodeImage w
                      (str_or (session_artUrl session) (session_thumbUrl session))
                      480 800)) /\
    dict_get "poster_url" d =
      Some (of_str (plex_transcodeImage w (session_thumbUrl session) 300 200)) /\
    dict_get "description" d = Some (of_str (session_summary session)).

(** What [display_info] will make of the slide of a library entry: the
    show rows for a season or a show, never the viewer rows. *)
Definition rows_of_entry (item : LibraryEntry) (d : Dict) : Prop :=
  dict_has "user" d && dict_has "transcode" d = false /\
  is_show_or_season d =
    (String.eqb (item_type item) "season" || String.eqb (item_type item) "show").

(** The episodes of a show, season by season. *)
Fixpoint total_episodes (episodes_of : Season -> list Episode)
    (seasons : list Season) : Z :=
  match seasons with
  | [] => 0
  | season :: rest =>
      Z.of_nat (List.length (episodes_of season)) + total_episodes episodes_of rest
  end.

(** A movie that is being played and has no summary. *)
Definition movie_session : Session :=
  {| session_type := "movie"; session_title := "Alien";
     session_summary := None;
     grandparentTitle := None;
     grandparentArt := None; parentArt := None; session_artUrl := None;
     grandparentThumb := None; session_thumb := Some "/thumb/alien";
     session_thumbUrl := Some "/thumb/alien";
     viewOffset := 0; duration := 7000000;
     usernames := None; transcodeSessions := [7] |}.

(** An episode that is being played and has no summary. *)
Definition bare_episode_session : Session :=
  {| session_type := "episode"; session_title := "Pilot";
     session_summary := None;
     grandparentTitle := Some "The Show";
     grandparentArt := None; parentArt := None; session_artUrl := None;
     grandparentThumb := None; session_thumb := None;
     session_thumbUrl := None;
     viewOffset := 0; duration := 1000;
     usernames := Some []; transcodeSessions := [] |}.

Definition two_sessions_world : World :=
  world_of (inr [episode_session (Some "/art/show") None None; movie_session])
    (inr three_movies) not_found no_events.

Definition bare_episode_world : World :=
  world_of (inr [movie_session; bare_episode_session])
    (inr three_movies) not_found no_events.

Definition the_show : Show :=
  {| show_title := "The Show"; show_summary := Some "A show.";
     show_artUrl := Some "/art/show"; show_ratingKey := VInt 20 |}.

(** The world of [season_world], but the show of the season resolves: it
    has two seasons, of three and four episodes. *)
Definition resolving_world : World :=
  {| DISPLAY_TIME := DISPLAY_TIME season_world;
     NUM_RECENT_ITEMS := NUM_RECENT_ITEMS season_world;
     TIME_FORMAT := TIME_FORMAT season_world;
     PLEX_TOKEN := PLEX_TOKEN season_world;
     plex_sessions := plex_sessions season_world;
     plex_recentlyAdded := plex_recentlyAdded season_world;
     plex_fetchItem := fun _ _ => inr the_show;
     show_seasons := fun _ _ => inr [1; 2];
     season_episodes := fun _ season => inr (if season =? 1 then [1; 2; 3] else [1; 2; 3; 4]);
     plex_transcodeImage := plex_transcodeImage season_world;
     plex_section := plex_section season_world;
     section_all := section_all season_world;
     requests_get := requests_get season_world;
     Image_open := Image_open season_world;
     Image_tobytes := Image_tobytes season_world;
     image_fromstring := image_fromstring season_world;
     font_size := font_size season_world;
     datetime_now := datetime_now season_world;
     strftime := strftime season_world;
     pygame_event_get := pygame_event_get season_world;
     getWindowsWithTitle := getWindowsWithTitle season_world;
     FindWindowW := FindWindowW season_world |}.

(** The world [w] with other answers of [plex.sessions()] and of
    [plex.library.section(name)]. *)
Definition with_queries (w : World) (sessions : nat -> Exc + list Session)
    (section : nat -> string -> Exc + LibrarySection) : World :=
  {| DISPLAY_TIME := DISPLAY_TIME w;
     NUM_RECENT_ITEMS := NUM_RECENT_ITEMS w;
     TIME_FORMAT := TIME_FORMAT w;
     PLEX_TOKEN := PLEX_TOKEN w;
     plex_sessions := sessions;
     plex_recentlyAdded := plex_recentlyAdded w;
     plex_fetchItem := plex_fetchItem w;
     show_seasons := show_seasons w;
     season_episodes := season_episodes w;
     plex_transcodeImage := plex_transcodeImage w;
     plex_section := section;
     section_all := section_all w;
     requests_get := requests_get w;
     Image_open := Image_open w;
     Image_tobytes := Image_tobytes w;
     image_fromstring := image_fromstring w;
     font_size := font_size w;
     datetime_now := datetime_now w;
     strftime := strftime w;
     pygame_event_get := pygame_event_get w;
     getWindowsWithTitle := getWindowsWithTitle w;
     FindWindowW := FindWindowW w |}.

(** The library has a section 'Films' instead of 'Movies'. *)
Definition films_world : World :=
  with_queries calm_world (plex_sessions calm_world)
    (fun _ name => if String.eqb name "Movies"
                   then inl (LibraryError "NotFound") else inr name).

(** Nothing is being played when the pass starts; a session has begun by
    the time the idle screen asks. *)
Definition late_session_world : World :=
  with_queries calm_world
    (fun n => if Nat.ltb n 3 then inr []
              else inr [episode_session (Some "/art/show") None None])
    (plex_section calm_world).

(** A movie is being played and [recentlyAdded()] does not answer. *)
Definition playing_only_world : World :=
  world_of (inr [movie_session]) (inl (LibraryError "ConnectionError"))
    not_found no_events.

(** Nothing is being played, nothing was added, and the window is being
    closed all the time. *)
Definition empty_closing_world : World :=
  world_of (inr []) (inr []) not_found (fun _ => [QUIT]).

(** A world in which a pass shows its slides and the idle screen without
    a failure: the server always answers [sessions()] with [sessions],
    whose descriptions can be built, it answers [recentlyAdded()] with
    [entries] in case nothing is being played, the images and the sections
    load, and the dwell is not negative. *)
Definition showing (w : World) (sessions : list Session)
    (entries : list LibraryEntry) : Prop :=
  (forall n, plex_sessions w n = inr sessions) /\
  Forall describable sessions /\
  (sessions = [] -> forall n, plex_recentlyAdded w n = inr entries) /\
  images_load w /\ sections_load w /\
  Qle_bool 0 (DISPLAY_TIME w) = true.

(** [m] returns, never raises, and its value satisfies [P]. *)
Definition returns {A : Type} (m : M A) (P : A -> Prop) : Prop :=
  forall s, exists a s', m s = Ok a s' /\ P a.

(** The number of idle screens presented so far. *)
Definition idle_screens (l : list Event) : nat := List.length (filter is_idle l).

(** The text [display_info] wraps for a dictionary: its description, or
    the placeholder when the description is missing, [None] or empty. *)
Definition description_text (d : Dict) : string :=
  match dict_get "description" d with
  | Some (VStr t) => if String.eqb t "" then "No description available" else t
  | _ => "No description available"
  end.

(** A movie slide without a description. *)
Definition bare_movie_slide : Dict :=
  movie_dict "Alien" (Some "/thumb/Alien") (Some "/art/Alien") None.

(** A slide whose title is [None]. *)
Definition untitled_slide : Dict :=
  [("title", VNone); ("poster_url", VNone); ("fanart_url", VNone)].

(** An event that puts no image on the screen. *)
Definition no_image (e : Event) : Prop :=
  match e with
  | EvBlit (DSurface _ _ _) _ _ => False
  | _ => True
  end.

Definition draws_no_image (e : Event) : Prop := is_drawing e /\ no_image e.

(** Every image request is answered, none with status 200. *)
Definition images_missing (w : World) : Prop :=
  forall n url, exists response,
    requests_get w n url (PLEX_TOKEN w) = inr response /\
    status_code response <> 200.

(** The world [w] with other answers of [fetchItem] and [seasons()]. *)
Definition with_show (w : World) (fetch : nat -> PyVal -> Exc + Show)
    (seasons : nat -> Show -> Exc + list Season) : World :=
  {| DISPLAY_TIME := DISPLAY_TIME w;
     NUM_RECENT_ITEMS := NUM_RECENT_ITEMS w;
     TIME_FORMAT := TIME_FORMAT w;
     PLEX_TOKEN := PLEX_TOKEN w;
     plex_sessions := plex_sessions w;
     plex_recentlyAdded := plex_recentlyAdded w;
     plex_fetchItem := fetch;
     show_seasons := seasons;
     season_episodes := season_episodes w;
     plex_transcodeImage := plex_transcodeImage w;
     plex_section := plex_section w;
     section_all := section_all w;
     requests_get := requests_get w;
     Image_open := Image_open w;
     Image_tobytes := Image_tobytes w;
     image_fromstring := image_fromstring w;
     font_size := font_size w;
     datetime_now := datetime_now w;
     strftime := strftime w;
     pygame_event_get := pygame_event_get w;
     getWindowsWithTitle := getWindowsWithTitle w;
     FindWindowW := FindWindowW w |}.

(** The show of the season resolves, but its seasons cannot be listed. *)
Definition seasons_down_world : World :=
  with_show season_world (fun _ _ => inr the_show)
    (fun _ _ => inl (LibraryError "ConnectionError")).

(** [media_to_display] of [main_loop], the list its [for] loop runs over:
    [now_playing if now_playing else get_last_added()]. *)
Definition media_to_display (w : World) : M (list Dict) :=
  now_playing <- get_currently_playing w;;
  match now_playing with
  | _ :: _ => ret now_playing
  | [] => get_last_added w
  end.

(** * Properties *)

Local Open Scope list_scope.

(** ** Strings and [split_space] *)

Lemma append_assoc (a b c : string) : ((a ++ b) ++ c = a ++ (b ++ c))%string.
Proof. induction a as [|x a IH]; simpl; [reflexivity | now rewrite IH]. Qed.

Lemma append_nil_r (a : string) : (a ++ "")%string = a.
Proof. induction a as [|x a IH]; simpl; [reflexivity | now rewrite IH]. Qed.

Lemma append_eq_nil (a b : string) : (a ++ b)%string = "" -> a = "" /\ b = "".
Proof. destruct a; simpl; [auto | discriminate]. Qed.

Lemma split_space_not_nil (s : string) : split_space s <> [].
Proof.
  induction s as [|c s IH]; simpl; [discriminate|].
  destruct (Ascii.eqb c " "); [discriminate|].
  destruct (split_space s); discriminate.
Qed.

Lemma split_space_no_space (s : string) :
  Forall (fun x => no_space x = true) (split_space s).
Proof.
  induction s as [|c s IH]; simpl.
  - repeat constructor.
  - destruct (Ascii.eqb c " ") eqn:E.
    + constructor; [reflexivity | exact IH].
    + destruct (split_space s) as [|x xs]; [repeat constructor; simpl; now rewrite E|].
      inversion IH as [|? ? Hx Hxs]; subst.
      constructor; [simpl; now rewrite E, Hx | exact Hxs].
Qed.

Lemma split_space_word (x : string) : no_space x = true -> split_space x = [x].
Proof.
  induction x as [|c x IH]; simpl; [reflexivity|].
  intros H. apply andb_prop in H as [Hc Hx].
  apply negb_true_iff in Hc. rewrite Hc, (IH Hx). reflexivity.
Qed.

Lemma split_space_app (a b : string) :
  split_space (a ++ String " " b)%string = split_space a ++ split_space b.
Proof.
  induction a as [|c a IH]; simpl; [reflexivity|].
  destruct (Ascii.eqb c " "); rewrite IH; [reflexivity|].
  destruct (split_space a) as [|x xs] eqn:E; [now apply split_space_not_nil in E|].
  reflexivity.
Qed.

Lemma spaced_cons (x : string) (ws : list string) :
  spaced (x :: ws) = (x ++ String " " (spaced ws))%string.
Proof. reflexivity. Qed.

Lemma spaced_app (a b : list string) :
  spaced (a ++ b) = (spaced a ++ spaced b)%string.
Proof.
  induction a as [|x a IH]; [reflexivity|].
  rewrite <- app_comm_cons, !spaced_cons, IH.
  now rewrite append_assoc.
Qed.

Lemma spaced_one (x : string) : spaced [x] = (x ++ " ")%string.
Proof. reflexivity. Qed.

Lemma spaced_nil_inv (b : list string) : spaced b = "" -> b = [].
Proof.
  destruct b as [|x b]; [reflexivity|]. rewrite spaced_cons. intros H.
  apply append_eq_nil in H as [_ H]. discriminate.
Qed.

Lemma split_space_spaced (ws : list string) :
  Forall (fun x => no_space x = true) ws ->
  split_space (spaced ws) = ws ++ [""].
Proof.
  induction 1 as [|x ws Hx _ IH]; [reflexivity|].
  now rewrite spaced_cons, split_space_app, (split_space_word _ Hx), IH.
Qed.

(** Each piece followed by a space gives the text back, one space longer. *)
Lemma spaced_split_space (s : string) : spaced (split_space s) = (s ++ " ")%string.
Proof.
  induction s as [|c s IH]; [reflexivity|]. simpl split_space.
  destruct (Ascii.eqb_spec c " ") as [->|_].
  - rewrite spaced_cons, IH. reflexivity.
  - destruct (split_space s) as [|x xs] eqn:E; [now apply split_space_not_nil in E|].
    rewrite spaced_cons in *. simpl. now rewrite IH.
Qed.

Lemma words_of_app (a b : string) :
  words_of (a ++ String " " b)%string = words_of a ++ words_of b.
Proof. unfold words_of. now rewrite split_space_app, filter_app. Qed.

Lemma words_of_spaced (ws : list string) :
  Forall (fun x => no_space x = true) ws ->
  words_of (spaced ws) = filter (fun x => negb (String.eqb x "")) ws.
Proof.
  intros H. unfold words_of. rewrite (split_space_spaced _ H), filter_app.
  simpl. now rewrite app_nil_r.
Qed.

Lemma words_of_join_space (ls : list string) :
  words_of (join_space ls) = List.concat (map words_of ls).
Proof.
  induction ls as [|l ls IH]; [reflexivity|].
  destruct ls as [|l' ls].
  - simpl. now rewrite app_nil_r.
  - change (join_space (l :: l' :: ls))
      with (l ++ String " " (join_space (l' :: ls)))%string.
    rewrite words_of_app, IH. reflexivity.
Qed.

Lemma words_of_join_spaced (bl : list (list string)) :
  Forall (Forall (fun x => no_space x = true)) bl ->
  words_of (join_space (map spaced bl)) =
  filter (fun x => negb (String.eqb x "")) (List.concat bl).
Proof.
  intros H. rewrite words_of_join_space.
  induction H as [|b bl Hb _ IH]; simpl; [reflexivity|].
  now rewrite filter_app, IH, (words_of_spaced _ Hb).
Qed.

Lemma Forall_concat_inv {A : Type} (P : A -> Prop) (bl : list (list A)) :
  Forall P (List.concat bl) -> Forall (Forall P) bl.
Proof.
  induction bl as [|b bl IH]; simpl; intros H; [constructor|].
  apply Forall_app in H as [Hb Hbl]. constructor; auto.
Qed.

(** ** [wrap_text] on small inputs *)

Example wrap_demo :
  wrap_text (Some "the quick brown fox"%string) ten_px 120
  = ["the quick "; "brown fox "]%string.
Proof. reflexivity. Qed.

Example wrap_demo_wide_first :
  wrap_text (Some "abcdefgh ij"%string) ten_px 50
  = [""; "abcdefgh "; "ij "]%string.
Proof. reflexivity. Qed.

Example wrap_demo_trailing :
  wrap_text (Some "a "%string) ten_px 500 = ["a  "]%string.
Proof. reflexivity. Qed.

Example wrap_demo_empty :
  wrap_text (Some ""%string) ten_px 500 = [] /\ wrap_text None ten_px 500 = [].
Proof. split; reflexivity. Qed.

(** ** The loop of [wrap_text] *)

Section Wrap.

Variable measure : string -> Z.
Variable max_width : Z.

(** The loop only moves words: lines and current line are runs of whole
    words, each word with its space, and together with the words still to
    come they are the words the loop started from. *)
Lemma wrap_loop_blocks (ws : list string) :
  forall (bl : list (list string)) (cb : list string),
  exists bl' cb',
    wrap_loop measure max_width ws (map spaced bl) (spaced cb)
      = (map spaced bl', spaced cb') /\
    List.concat bl' ++ cb' = List.concat bl ++ cb ++ ws.
Proof.
  induction ws as [|x ws IH]; intros bl cb; simpl.
  - exists bl, cb. now rewrite app_nil_r.
  - destruct (measure (spaced cb ++ x ++ " ")%string <? max_width).
    + destruct (IH bl (cb ++ [x])) as (bl' & cb' & E & Hc).
      exists bl', cb'. split.
      * rewrite <- E, spaced_app, spaced_one. reflexivity.
      * rewrite Hc, <- !app_assoc. reflexivity.
    + destruct (IH (bl ++ [cb]) [x]) as (bl' & cb' & E & Hc).
      exists bl', cb'. split.
      * rewrite <- E, map_app, spaced_one. reflexivity.
      * rewrite Hc, List.concat_app. simpl. now rewrite app_nil_r, <- !app_assoc.
Qed.

(** The lines of a non-empty text are runs of its words, in order. *)
Lemma wrap_text_blocks (s : string) :
  s <> "" ->
  exists bl,
    wrap_text (Some s) measure max_width = map spaced bl /\
    List.concat bl = split_space s.
Proof.
  intros Hs. destruct s as [|c s]; [congruence|].
  unfold wrap_text.
  destruct (wrap_loop_blocks (split_space (String c s)) [] [])
    as (bl' & cb' & E & Hc).
  change (map spaced []) with (@nil string) in E.
  change (spaced []) with ""%string in E. rewrite E. simpl in Hc.
  destruct (String.eqb_spec (spaced cb') "") as [Hn|Hn].
  - exists bl'. apply spaced_nil_inv in Hn. subst cb'.
    now rewrite app_nil_r in Hc.
  - exists (bl' ++ [cb']). rewrite map_app, List.concat_app. simpl.
    now rewrite app_nil_r.
Qed.

(** The width test of the loop: a line is committed either after it passed
    the test on its own, or as the single word that opened it, or as the
    empty line in front of a first word that failed the test. *)
Lemma wrap_loop_widths (words ws : list string) :
  incl ws words ->
  forall lines current,
  let fits l :=
    measure l <= max_width \/
    exists word, In word words /\ l = (word ++ " ")%string /\ max_width < measure l in
  Forall fits lines -> fits current ->
  Forall fits (fst (wrap_loop measure max_width ws lines current)) /\
  fits (snd (wrap_loop measure max_width ws lines current)).
Proof.
  intros Hincl lines current fits. revert lines current.
  induction ws as [|x ws IH]; intros lines current Hl Hc; simpl; [auto|].
  assert (Hx : In x words) by (apply Hincl; now left).
  assert (Hws : incl ws words) by (intros y Hy; apply Hincl; now right).
  destruct (Z.ltb_spec (measure (current ++ x ++ " ")%string) max_width) as [Hlt|Hge].
  - apply (IH Hws); [exact Hl | left; lia].
  - apply (IH Hws).
    + apply Forall_app. split; [exact Hl | now constructor].
    + destruct (Z_le_gt_dec (measure (x ++ " ")%string) max_width) as [Hle|Hgt].
      * now left.
      * right. exists x. repeat split; [exact Hx | lia].
Qed.

End Wrap.

(** C4, as the code has it.  For a non-empty text, every line [wrap_text]
    returns measures at most [max_width], except possibly a line that holds
    a single word of the text and, measured with the space that follows the
    word, is wider than [max_width]; the word by itself may well fit.  The
    measure is any function under which the empty string fits, for the
    empty line the code puts in front of a first word that fails the
    test. *)
Theorem wrap_text_line_width (measure : string -> Z) (max_width : Z)
    (text line : string) :
  measure ""%string <= max_width ->
  text <> ""%string ->
  In line (wrap_text (Some text) measure max_width) ->
  measure line <= max_width \/
  exists word, In word (split_space text) /\ line = (word ++ " ")%string /\
               max_width < measure line.
Proof.
  intros Hempty Htext Hin.
  destruct text as [|c s]; [congruence|].
  unfold wrap_text in Hin.
  pose proof (wrap_loop_widths measure max_width (split_space (String c s))
                (split_space (String c s)) (incl_refl _) [] ""%string
                (Forall_nil _) (or_introl Hempty)) as [Hlines Hcur].
  destruct (wrap_loop measure max_width (split_space (String c s)) [] "")
    as [lines current].
  simpl in Hlines, Hcur.
  destruct (String.eqb current "").
  - exact (proj1 (Forall_forall _ _) Hlines _ Hin).
  - apply in_app_or in Hin as [Hin|[<-|[]]].
    + exact (proj1 (Forall_forall _ _) Hlines _ Hin).
    + exact Hcur.
Qed.

Lemma wrap_text_line_width_witness :
  ten_px ""%string <= 120 /\
  "the quick brown fox"%string <> ""%string /\
  In "brown fox "%string (wrap_text (Some "the quick brown fox"%string) ten_px 120) /\
  (ten_px "brown fox " <= 120 \/
   exists word, In word (split_space "the quick brown fox") /\
                "brown fox "%string = (word ++ " ")%string /\
                120 < ten_px "brown fox ").
Proof.
  assert (H1 : ten_px ""%string <= 120) by (vm_compute; discriminate).
  assert (H2 : "the quick brown fox"%string <> ""%string) by discriminate.
  assert (H3 : In "brown fox "%string
                 (wrap_text (Some "the quick brown fox"%string) ten_px 120))
    by (vm_compute; auto).
  repeat split; try assumption.
  exact (wrap_text_line_width ten_px 120 _ _ H1 H2 H3).
Defined.

(** A word that fits, pushed over the limit by its space: at ten pixels a
    character and a limit of 35, the line of ["abc"] measures 40. *)
Lemma fitting_word_overflows : ~ lines_fit ten_px 35 "a abc"%string.
Proof.
  intros H.
  assert (Hin : In "abc "%string (wrap_text (Some "a abc"%string) ten_px 35))
    by (vm_compute; auto).
  destruct (H _ Hin) as [Hfit | (word & Hword & _ & Hwide)].
  - apply Hfit. reflexivity.
  - simpl in Hword.
    destruct Hword as [<- | [<- | []]]; vm_compute in Hwide; discriminate Hwide.
Qed.

(** C5.  Wrapping loses, repeats or reorders no word: the words read off
    the lines joined with single spaces are the words of the text. *)
Theorem wrap_text_keeps_words (measure : string -> Z) (max_width : Z)
    (text : option string) :
  words_of (join_space (wrap_text text measure max_width)) =
  match text with
  | Some s => words_of s
  | None => []
  end.
Proof.
  destruct text as [s|]; [|reflexivity].
  destruct (String.eqb_spec s "") as [->|Hs]; [reflexivity|].
  destruct (wrap_text_blocks measure max_width s Hs) as (bl & E & Hc).
  rewrite E, words_of_join_spaced.
  - now rewrite Hc.
  - apply Forall_concat_inv. rewrite Hc. apply split_space_no_space.
Qed.

(** X1.  Wrapping changes no character: the lines of a non-empty text,
    put end to end, are the text followed by one space, whatever the
    measure and the width. *)
Lemma wrap_text_concat (measure : string -> Z) (max_width : Z) (s : string) :
  s <> ""%string ->
  String.concat "" (wrap_text (Some s) measure max_width) = (s ++ " ")%string.
Proof.
  intros Hs.
  destruct (wrap_text_blocks measure max_width s Hs) as (bl & E & Hc).
  rewrite E, <- spaced_split_space, <- Hc. clear.
  induction bl as [|b bl IH]; [reflexivity|].
  simpl List.concat. rewrite spaced_app, <- IH. simpl map.
  destruct (map spaced bl); [simpl; now rewrite append_nil_r | reflexivity].
Qed.

Lemma wrap_text_concat_witness :
  "the quick brown fox"%string <> ""%string /\
  String.concat "" (wrap_text (Some "the quick brown fox"%string) ten_px 120)
  = "the quick brown fox "%string.
Proof.
  assert (H : "the quick brown fox"%string <> ""%string) by discriminate.
  split; [exact H|].
  exact (wrap_text_concat ten_px 120 "the quick brown fox" H).
Defined.

Lemma no_space_last (x : string) :
  no_space x = true -> x <> ""%string ->
  exists body c, x = (body ++ String c "")%string /\ c <> " "%char.
Proof.
  induction x as [|a x IH]; [congruence|]. simpl. intros H _.
  apply andb_prop in H as [Ha Hx]. apply negb_true_iff, Ascii.eqb_neq in Ha.
  destruct x as [|b x].
  - exists ""%string, a. auto.
  - destruct (IH Hx) as (body & c & E & Hc); [discriminate|].
    exists (String a body), c. simpl. now rewrite E.
Qed.

(** C9, as the code has it.  For a non-empty text, every non-empty line
    [wrap_text] returns is a run of pieces of [text.split(' ')], each
    followed by one space that is never stripped.  It ends with its last
    piece and the space after it; when that piece is not empty, the line
    ends with exactly one space.  An empty piece, which a leading, trailing
    or doubled space in the text gives, leaves its own space behind the
    one before it. *)
Theorem wrap_text_trailing_space (measure : string -> Z) (max_width : Z)
    (text line : string) :
  text <> ""%string ->
  In line (wrap_text (Some text) measure max_width) ->
  line <> ""%string ->
  exists before last_word,
    line = (spaced before ++ last_word ++ " ")%string /\
    incl (before ++ [last_word]) (split_space text) /\
    no_space last_word = true /\
    (last_word <> ""%string -> ends_with_one_space line).
Proof.
  intros Htext Hin Hline.
  destruct (wrap_text_blocks measure max_width text Htext) as (bl & E & Hc).
  rewrite E in Hin. apply in_map_iff in Hin as (b & <- & Hb).
  destruct (exists_last (l := b)) as (before & last_word & ->).
  { intros ->. now apply Hline. }
  assert (Hincl : incl (before ++ [last_word]) (split_space text)).
  { intros x Hx. rewrite <- Hc. apply in_concat. eauto. }
  assert (Hns : no_space last_word = true).
  { pose proof (split_space_no_space text) as Hall.
    apply (proj1 (Forall_forall _ _) Hall). apply Hincl, in_or_app. right. now left. }
  exists before, last_word. split; [|split; [|split]].
  - now rewrite spaced_app, spaced_one.
  - exact Hincl.
  - exact Hns.
  - intros Hne. destruct (no_space_last last_word Hns Hne) as (body & c & -> & Hsp).
    exists (spaced before ++ body)%string, c. split; [|exact Hsp].
    rewrite spaced_app, spaced_one, !append_assoc. reflexivity.
Qed.

Lemma wrap_text_trailing_space_witness :
  "the quick brown fox"%string <> ""%string /\
  In "the quick "%string (wrap_text (Some "the quick brown fox"%string) ten_px 120) /\
  "the quick "%string <> ""%string /\
  exists before last_word,
    "the quick "%string = (spaced before ++ last_word ++ " ")%string /\
    incl (before ++ [last_word]) (split_space "the quick brown fox") /\
    no_space last_word = true /\
    (last_word <> ""%string -> ends_with_one_space "the quick ").
Proof.
  assert (H1 : "the quick brown fox"%string <> ""%string) by discriminate.
  assert (H2 : In "the quick "%string
                 (wrap_text (Some "the quick brown fox"%string) ten_px 120))
    by (vm_compute; auto).
  assert (H3 : "the quick "%string <> ""%string) by discriminate.
  repeat split; try assumption.
  exact (wrap_text_trailing_space ten_px 120 _ _ H1 H2 H3).
Defined.

(** A text that ends with a space: its only line ends with two. *)
Lemma trailing_space_doubles : ~ lines_end_with_one_space ten_px 500 "a "%string.
Proof.
  intros H.
  assert (Hin : In "a  "%string (wrap_text (Some "a "%string) ten_px 500))
    by (vm_compute; auto).
  assert (Hne : "a  "%string <> ""%string) by discriminate.
  destruct (H _ Hin Hne) as (body & c & E & Hc).
  destruct body as [|x [|y [|z body]]]; simpl in E; try discriminate E.
  - congruence.
  - destruct body; discriminate E.
Qed.

(** ** The monad *)

Lemma timeline_app (a b : list Event) : timeline (a ++ b) = timeline a ++ timeline b.
Proof. apply filter_app. Qed.

Lemma silent_ret {A : Type} (a : A) : silent (ret a).
Proof. intros s. reflexivity. Qed.

Lemma silent_ext {A : Type} (f : nat -> Exc + A) : silent (ext f).
Proof. intros s. unfold ext. destruct (f (calls s)); reflexivity. Qed.

Lemma silent_bind {A B : Type} (m : M A) (f : A -> M B) :
  silent m -> (forall a, silent (f a)) -> silent (bind m f).
Proof.
  intros Hm Hf s. unfold bind. specialize (Hm s).
  destruct (m s) as [a s1|e s1]; simpl in *; [|exact Hm].
  now rewrite (Hf a s1).
Qed.

Lemma silent_try {A : Type} (m : M A) (h : Exc -> M A) :
  silent m -> (forall e, silent (h e)) -> silent (try_except m h).
Proof.
  intros Hm Hh s. unfold try_except. specialize (Hm s).
  destruct (m s) as [a s1|e s1]; simpl in *; [exact Hm|].
  now rewrite (Hh e s1).
Qed.

Lemma yields_ret {A : Type} (a : A) (P : A -> list Event -> Prop) :
  P a [] -> yields (ret a) P.
Proof.
  intros H s. exists a, s, []. now rewrite app_nil_r.
Qed.

Lemma yields_emit (e : Event) (P : unit -> list Event -> Prop) :
  P tt (timeline [e]) -> yields (emit e) P.
Proof.
  intros H s. eexists tt, _, (timeline [e]). split; [reflexivity|].
  split; [apply timeline_app | exact H].
Qed.

Lemma yields_ext {A : Type} (f : nat -> Exc + A) (P : A -> list Event -> Prop) :
  (forall n, exists a, f n = inr a /\ P a []) -> yields (ext f) P.
Proof.
  intros H s. destruct (H (calls s)) as (a & E & Ha).
  exists a, (called s), []. unfold ext. rewrite E.
  split; [reflexivity|]. simpl. now rewrite app_nil_r.
Qed.

Lemma yields_bind {A B : Type} (m : M A) (f : A -> M B)
    (P1 : A -> list Event -> Prop) (P : B -> list Event -> Prop) :
  yields m P1 ->
  (forall a evs1, P1 a evs1 -> yields (f a) (fun b evs2 => P b (evs1 ++ evs2))) ->
  yields (bind m f) P.
Proof.
  intros Hm Hf s. destruct (Hm s) as (a & s1 & evs1 & E1 & T1 & H1).
  destruct (Hf a evs1 H1 s1) as (b & s2 & evs2 & E2 & T2 & H2).
  exists b, s2, (evs1 ++ evs2). unfold bind. rewrite E1.
  split; [exact E2|]. split; [|exact H2].
  now rewrite T2, T1, app_assoc.
Qed.

(** A step that shows nothing, then the rest. *)
Lemma yields_after {A B : Type} (m : M A) (f : A -> M B)
    (Q : A -> Prop) (P : B -> list Event -> Prop) :
  yields m (fun a evs => evs = [] /\ Q a) ->
  (forall a, Q a -> yields (f a) P) ->
  yields (bind m f) P.
Proof.
  intros Hm Hf. apply (yields_bind _ _ _ _ Hm).
  intros a evs1 [-> Ha]. exact (Hf a Ha).
Qed.

Lemma yields_weaken {A : Type} (m : M A) (P Q : A -> list Event -> Prop) :
  yields m P -> (forall a evs, P a evs -> Q a evs) -> yields m Q.
Proof.
  intros Hm HPQ s. destruct (Hm s) as (a & s1 & evs & E & T & H).
  exists a, s1, evs. auto.
Qed.

(** A silent computation that returns shows nothing. *)
Lemma silent_timeline {A : Type} (m : M A) (s s' : State) (a : A) :
  silent m -> m s = Ok a s' -> timeline (log s') = timeline (log s) ++ [].
Proof.
  intros Hm E. specialize (Hm s). rewrite E in Hm. simpl in Hm.
  now rewrite Hm, app_nil_r.
Qed.

Lemma handle_events_cancels (events : list PgEvent) (running : bool) :
  handle_events events running = running && negb (cancels events).
Proof.
  revert running. induction events as [|e events IH]; intros running; simpl.
  - now rewrite andb_true_r.
  - destruct e as [|key|t]; simpl.
    + rewrite IH. now rewrite andb_false_r.
    + destruct (key =? K_ESCAPE); simpl; rewrite IH; [now rewrite andb_false_r | reflexivity].
    + apply IH.
Qed.

(** ** get_last_added *)

Section Catalog.

Variable w : World.

Lemma sum_episodes_silent (seasons : list Season) :
  forall total, silent (sum_episodes w seasons total).
Proof.
  induction seasons as [|season rest IH]; intros total; simpl.
  - apply silent_ret.
  - apply silent_bind; [apply silent_ext | intros episodes; apply IH].
Qed.

Lemma count_seasons_episodes_silent (show : Show) :
  silent (count_seasons_episodes w show).
Proof.
  unfold count_seasons_episodes.
  apply silent_bind; [apply silent_ext | intros seasons].
  apply silent_bind; [apply silent_ext | intros seasons'].
  apply silent_bind; [apply sum_episodes_silent | intros n; apply silent_ret].
Qed.

(** The ['season'] / ['show'] branch always produces a dictionary. *)
Lemma show_entry_total (item : LibraryEntry) (s : State) :
  exists entry s',
    show_entry w item s = Ok entry s' /\ log s' = log s /\
    exists title fanart_url description num_seasons num_episodes,
      entry = show_dict title (item_thumbUrl item) fanart_url description
                num_seasons num_episodes.
Proof.
  unfold show_entry, try_except, bind, ext.
  destruct (plex_fetchItem w (calls s) (show_key item)) as [e|show].
  - eexists _, _. split; [reflexivity|]. split; [reflexivity|]. eauto 6.
  - pose proof (count_seasons_episodes_silent show
                  {| calls := S (calls s); log := log s |}) as Hlog.
    destruct (count_seasons_episodes w show _) as [[ns ne] s1|e s1];
      simpl in Hlog; eexists _, _; (split; [reflexivity|]);
      (split; [exact Hlog|]); eauto 6.
Qed.

(** When the try body raises, the entry falls back to its own title. *)
Lemma show_entry_fallback (item : LibraryEntry) (s : State) :
  resolution_fails w item s ->
  exists fanart_url s',
    show_entry w item s =
      Ok (show_dict (item_title item) (item_thumbUrl item) fanart_url
            (Some "Description not available") 0 0) s'.
Proof.
  unfold resolution_fails, show_entry, try_except, bind, ext.
  destruct (plex_fetchItem w (calls s) (show_key item)) as [e|show].
  - intros _. eexists _, _. reflexivity.
  - intros (e & s1 & E). unfold called in E. rewrite E.
    eexists _, _. reflexivity.
Qed.

(** The loop never raises; it appends one slide for each supported entry,
    in order, and nothing for the others. *)
Lemma last_added_loop_total (items : list LibraryEntry) :
  forall recently_added s,
  exists more s',
    last_added_loop w items recently_added s = Ok (recently_added ++ more) s' /\
    log s' = log s /\
    Forall2 entry_of (filter supported items) more.
Proof.
  induction items as [|item rest IH]; intros acc s; simpl.
  - exists [], s. rewrite app_nil_r. repeat split. constructor.
  - unfold supported at 1, entry_of.
    destruct (String.eqb (item_type item) "season" || String.eqb (item_type item) "show")
      eqn:Eshow; simpl.
    + destruct (show_entry_total item s) as (entry & s1 & E1 & L1 & Hshape).
      destruct (IH (acc ++ [entry]) s1) as (more & s2 & E2 & L2 & Hmore).
      exists (entry :: more), s2. unfold bind. rewrite E1, E2, <- app_assoc.
      repeat split; [congruence|]. constructor; [|exact Hmore].
      unfold entry_of. now rewrite Eshow.
    + destruct (String.eqb (item_type item) "movie") eqn:Emovie.
      * destruct (IH (acc ++ [movie_dict (item_title item) (item_thumbUrl item)
                                (item_artUrl item) (item_summary item)]) s)
          as (more & s2 & E2 & L2 & Hmore).
        eexists (_ :: more), s2. rewrite E2, <- app_assoc.
        repeat split; [exact L2|]. constructor; [|exact Hmore].
        unfold entry_of. now rewrite Eshow.
      * exact (IH acc s).
Qed.

Lemma get_last_added_total (entries : list LibraryEntry) (s : State) :
  plex_recentlyAdded w (calls s) = inr entries ->
  exists slides s',
    get_last_added w s = Ok slides s' /\ log s' = log s /\
    Forall2 entry_of
      (filter supported (py_slice_to (NUM_RECENT_ITEMS w) entries)) slides.
Proof.
  intros E. unfold get_last_added, bind, ext. rewrite E.
  destruct (last_added_loop_total (py_slice_to (NUM_RECENT_ITEMS w) entries) []
              {| calls := S (calls s); log := log s |})
    as (more & s1 & E1 & L1 & H1).
  exists more, s1. simpl in E1. auto.
Qed.

End Catalog.

Lemma filter_length_lt {A : Type} (f : A -> bool) (l : list A) (x : A) :
  In x l -> f x = false -> (List.length (filter f l) < List.length l)%nat.
Proof.
  induction l as [|y l IH]; simpl; [tauto|].
  intros [->|Hin] Hx.
  - rewrite Hx. pose proof (filter_length_le f l). lia.
  - specialize (IH Hin Hx). destruct (f y); simpl; lia.
Qed.

Lemma entry_of_slide_ok (item : LibraryEntry) (d : Dict) : entry_of item d -> slide_ok d.
Proof.
  unfold entry_of, slide_ok.
  destruct (_ || _).
  - intros (t & f & dsc & ns & ne & ->). simpl.
    repeat split; eauto. intros z. destruct dsc; discriminate.
  - intros ->. simpl. repeat split; eauto.
    intros z. destruct (item_summary item); discriminate.
Qed.

(** C6.  A ['season'] or ['show'] entry whose show cannot be resolved
    (the try body raises) still gives a slide, with the entry's own title,
    the description "Description not available" and zero seasons and
    episodes; nothing is raised, and the loop goes on to the remaining
    entries, adding a slide for each supported one. *)
Theorem unresolved_show_falls_back (w : World) (item : LibraryEntry)
    (rest : list LibraryEntry) (recently_added : list Dict) (s : State) :
  item_type item = "season"%string \/ item_type item = "show"%string ->
  resolution_fails w item s ->
  exists slide s1,
    show_entry w item s = Ok slide s1 /\
    dict_get "title" slide = Some (VStr (item_title item)) /\
    dict_get "description" slide = Some (VStr "Description not available") /\
    dict_get "seasons" slide = Some (VInt 0) /\
    dict_get "episodes" slide = Some (VInt 0) /\
    exists more s2,
      last_added_loop w (item :: rest) recently_added s
        = Ok (recently_added ++ slide :: more) s2 /\
      Forall2 entry_of (filter supported rest) more.
Proof.
  intros Htype Hfail.
  destruct (show_entry_fallback w item s Hfail) as (fanart_url & s1 & E).
  eexists _, s1. split; [exact E|]. repeat (split; [reflexivity|]).
  destruct (last_added_loop_total w rest
              (recently_added ++
                 [show_dict (item_title item) (item_thumbUrl item) fanart_url
                    (Some "Description not available"%string) 0 0]) s1)
    as (more & s2 & E2 & _ & Hmore).
  exists more, s2. split; [|exact Hmore].
  simpl last_added_loop.
  assert (Hb : String.eqb (item_type item) "season" || String.eqb (item_type item) "show" = true).
  { destruct Htype as [-> | ->]; reflexivity. }
  rewrite Hb. unfold bind. rewrite E, E2, <- app_assoc. reflexivity.
Qed.

Lemma unresolved_show_falls_back_witness :
  exists slide s1,
    show_entry season_world (season_entry "Season 1") (called start) = Ok slide s1 /\
    dict_get "title" slide = Some (VStr "Season 1") /\
    dict_get "description" slide = Some (VStr "Description not available") /\
    dict_get "seasons" slide = Some (VInt 0) /\
    dict_get "episodes" slide = Some (VInt 0) /\
    exists more s2,
      last_added_loop season_world [season_entry "Season 1"; movie_entry "Alien"]
        [] (called start) = Ok ([] ++ slide :: more) s2 /\
      Forall2 entry_of (filter supported [movie_entry "Alien"]) more.
Proof.
  apply (unresolved_show_falls_back season_world (season_entry "Season 1")
           [movie_entry "Alien"] [] (called start)).
  - left. reflexivity.
  - exact I.
Defined.

(** C10.  [get_last_added] looks at the first [NUM_RECENT_ITEMS] entries
    of [recentlyAdded()] only, and its slides are, in order, those of them
    whose type is ['movie'], ['show'] or ['season']; any other entry among
    them is dropped without a trace, which leaves fewer slides than
    [NUM_RECENT_ITEMS] and fewer than there are entries. *)
Theorem get_last_added_filters (w : World) (entries : list LibraryEntry) (s : State) :
  0 <= NUM_RECENT_ITEMS w ->
  plex_recentlyAdded w (calls s) = inr entries ->
  exists slides s',
    get_last_added w s = Ok slides s' /\
    Forall2 entry_of
      (filter supported (firstn (Z.to_nat (NUM_RECENT_ITEMS w)) entries)) slides /\
    (forall item,
       In item (firstn (Z.to_nat (NUM_RECENT_ITEMS w)) entries) ->
       supported item = false ->
       (List.length slides < Z.to_nat (NUM_RECENT_ITEMS w))%nat /\
       (List.length slides < List.length entries)%nat).
Proof.
  intros Hnum E.
  destruct (get_last_added_total w entries s E) as (slides & s' & E' & _ & H).
  unfold py_slice_to in H.
  destruct (Z.leb_spec 0 (NUM_RECENT_ITEMS w)) as [_|Hneg]; [|lia].
  exists slides, s'. split; [exact E'|]. split; [exact H|].
  intros item Hin Hun.
  pose proof (Forall2_length H) as Hlen.
  pose proof (filter_length_lt supported _ item Hin Hun) as Hlt.
  pose proof (length_firstn (Z.to_nat (NUM_RECENT_ITEMS w)) entries) as Hn.
  lia.
Qed.

Lemma get_last_added_filters_witness :
  0 <= NUM_RECENT_ITEMS episode_world /\
  plex_recentlyAdded episode_world (calls (called start))
    = inr [episode_entry "Pilot"; movie_entry "Alien"] /\
  exists slides s',
    get_last_added episode_world (called start) = Ok slides s' /\
    Forall2 entry_of
      (filter supported
         (firstn (Z.to_nat (NUM_RECENT_ITEMS episode_world))
            [episode_entry "Pilot"; movie_entry "Alien"])) slides /\
    (forall item,
       In item (firstn (Z.to_nat (NUM_RECENT_ITEMS episode_world))
                  [episode_entry "Pilot"; movie_entry "Alien"]) ->
       supported item = false ->
       (List.length slides < Z.to_nat (NUM_RECENT_ITEMS episode_world))%nat /\
       (List.length slides < List.length [episode_entry "Pilot"; movie_entry "Alien"])%nat).
Proof.
  assert (H1 : 0 <= NUM_RECENT_ITEMS episode_world) by (simpl; lia).
  assert (H2 : plex_recentlyAdded episode_world (calls (called start))
               = inr [episode_entry "Pilot"; movie_entry "Alien"]) by reflexivity.
  split; [exact H1|]. split; [exact H2|].
  exact (get_last_added_filters episode_world _ (called start) H1 H2).
Defined.

(** ** get_currently_playing *)

Section Sessions.

Variable w : World.

Lemma session_entry_fanart (session : Session) (s : State) :
  describable session ->
  exists entry s',
    session_entry w session s = Ok entry s' /\ log s' = log s /\
    fanart_by_priority w session entry.
Proof.
  intros Hd. unfold session_entry, fanart_by_priority.
  destruct (String.eqb_spec (session_type session) "episode") as [Hep|Hne].
  - destruct (Hd Hep) as [Ht Hs].
    destruct (grandparentTitle session) as [t|]; [|congruence].
    destruct (session_summary session) as [u|]; [|congruence].
    eexists _, _. split; [reflexivity|]. split; [reflexivity|].
    intros _. eexists. split; [reflexivity|]. unfold str_or.
    repeat split; intros H1; try intros H2; rewrite ?H1, ?H2; reflexivity.
  - eexists _, _. split; [reflexivity|]. split; [reflexivity|].
    intros Hep. contradiction.
Qed.

Lemma sessions_loop_fanart (sessions : list Session) :
  Forall describable sessions ->
  forall now_playing s,
  exists entries s',
    sessions_loop w sessions now_playing s = Ok (now_playing ++ entries) s' /\
    log s' = log s /\
    Forall2 (fanart_by_priority w) sessions entries.
Proof.
  induction 1 as [|session rest Hd _ IH]; intros acc s; simpl.
  - exists [], s. rewrite app_nil_r. repeat split. constructor.
  - destruct (session_entry_fanart session s Hd) as (entry & s1 & E1 & L1 & H1).
    destruct (IH (acc ++ [entry]) s1) as (entries & s2 & E2 & L2 & H2).
    exists (entry :: entries), s2. unfold bind. rewrite E1, E2, <- app_assoc.
    repeat split; [congruence|]. now constructor.
Qed.

Lemma session_entry_ok (session : Session) (s : State) :
  describable session ->
  exists entry s',
    session_entry w session s = Ok entry s' /\ log s' = log s /\ slide_ok entry.
Proof.
  intros Hd. unfold session_entry, slide_ok.
  destruct (String.eqb_spec (session_type session) "episode") as [Hep|Hne].
  - destruct (Hd Hep) as [Ht Hs].
    destruct (grandparentTitle session) as [t|]; [|congruence].
    destruct (session_summary session) as [u|]; [|congruence].
    eexists _, _. split; [reflexivity|]. split; [reflexivity|].
    simpl. repeat split; eauto. discriminate.
  - eexists _, _. split; [reflexivity|]. split; [reflexivity|].
    simpl. repeat split; eauto.
    intros z. destruct (session_summary session); discriminate.
Qed.

Lemma sessions_loop_ok (sessions : list Session) :
  Forall describable sessions ->
  forall now_playing s,
  exists entries s',
    sessions_loop w sessions now_playing s = Ok (now_playing ++ entries) s' /\
    log s' = log s /\
    List.length entries = List.length sessions /\
    Forall slide_ok entries.
Proof.
  induction 1 as [|session rest Hd _ IH]; intros acc s; simpl.
  - exists [], s. rewrite app_nil_r. repeat split. constructor.
  - destruct (session_entry_ok session s Hd) as (entry & s1 & E1 & L1 & H1).
    destruct (IH (acc ++ [entry]) s1) as (entries & s2 & E2 & L2 & Hlen & H2).
    exists (entry :: entries), s2. unfold bind. rewrite E1, E2, <- app_assoc.
    repeat split; [congruence | simpl; congruence | now constructor].
Qed.

End Sessions.

(** C7.  For a session of type ['episode'], the fanart in the dictionary
    [get_currently_playing] returns for it is the (transcoded) first
    non-empty of the show's art, the season's art and the episode's own
    art, in that order: the show's art whenever it is set, whatever the
    other two are. *)
Theorem currently_playing_fanart (w : World) (sessions : list Session) (s : State) :
  plex_sessions w (calls s) = inr sessions ->
  Forall describable sessions ->
  exists now_playing s',
    get_currently_playing w s = Ok now_playing s' /\
    Forall2 (fanart_by_priority w) sessions now_playing.
Proof.
  intros E Hd. unfold get_currently_playing, bind, ext. rewrite E.
  destruct (sessions_loop_fanart w sessions Hd []
              {| calls := S (calls s); log := log s |})
    as (entries & s' & E' & _ & H).
  exists entries, s'. simpl in E'. auto.
Qed.

Lemma currently_playing_fanart_witness :
  plex_sessions playing_world (calls (called start))
    = inr [episode_session (Some "/art/show"%string) None None] /\
  Forall describable [episode_session (Some "/art/show"%string) None None] /\
  exists now_playing s',
    get_currently_playing playing_world (called start) = Ok now_playing s' /\
    Forall2 (fanart_by_priority playing_world)
      [episode_session (Some "/art/show"%string) None None] now_playing.
Proof.
  assert (H1 : plex_sessions playing_world (calls (called start))
               = inr [episode_session (Some "/art/show"%string) None None])
    by reflexivity.
  assert (H2 : Forall describable [episode_session (Some "/art/show"%string) None None]).
  { constructor; [|constructor]. intros _. split; discriminate. }
  split; [exact H1|]. split; [exact H2|].
  exact (currently_playing_fanart playing_world _ (called start) H1 H2).
Defined.

(** ** fetch_poster *)

(** C1, as the code has it.  [fetch_poster] returns the decoded bitmap
    when the request is answered with status 200 and the body decodes, and
    [None] when it is answered with any other status.  It catches nothing:
    an exception of the request or of one of the three decoding steps comes
    out of [fetch_poster] as it was raised. *)
Theorem fetch_poster_outcome (w : World) (url : PyVal) (s : State) :
  fetch_poster w url s =
  match requests_get w (calls s) url (PLEX_TOKEN w) with
  | inl e => Raise e (called s)
  | inr response =>
      if status_code response =? 200
      then match Image_open w (content response) with
           | inl e => Raise e (called s)
           | inr image =>
               match Image_tobytes w image with
               | inl e => Raise e (called s)
               | inr bytes =>
                   match image_fromstring w bytes (image_size image) (image_mode image) with
                   | inl e => Raise e (called s)
                   | inr surface => Ok (Some surface) (called s)
                   end
               end
           end
      else Ok None (called s)
  end.
Proof.
  unfold fetch_poster, bind, ext, called.
  destruct (requests_get w (calls s) url (PLEX_TOKEN w)) as [e|response]; [reflexivity|].
  destruct (status_code response =? 200); [|reflexivity].
  destruct (Image_open w (content response)) as [e|image]; [reflexivity|]. simpl.
  destruct (Image_tobytes w image) as [e|bytes]; [reflexivity|]. simpl.
  destruct (image_fromstring w bytes (image_size image) (image_mode image));
    reflexivity.
Qed.

(** With the network down, the request for a poster raises and so does
    [fetch_poster]. *)
Lemma fetch_poster_raises_offline : ~ fetch_never_raises offline_world.
Proof.
  intros H. destruct (H (VStr "/art/Alien") start) as (image & s' & E).
  discriminate E.
Qed.

(** ** The drawing functions and the loop in a steady world *)

Ltac quiet_emit := apply yields_emit; simpl; auto.

Section Steady.

Variable w : World.
Variable sessions : list Session.
Variable entries : list LibraryEntry.
Hypothesis Hsteady : steady w sessions entries.

Let Hsessions := proj1 Hsteady.
Let Hdescribable := proj1 (proj2 Hsteady).
Let Hrecent := proj1 (proj2 (proj2 Hsteady)).
Let Himages := proj1 (proj2 (proj2 (proj2 Hsteady))).
Let Hsections := proj1 (proj2 (proj2 (proj2 (proj2 Hsteady)))).
Let Hsleep := proj2 (proj2 (proj2 (proj2 (proj2 Hsteady)))).

Lemma fetch_poster_quiet (url : PyVal) :
  yields (fetch_poster w url) (fun _ evs => evs = [] /\ True).
Proof.
  intros s. unfold fetch_poster, bind, ext.
  destruct (Himages (calls s) url) as (response & E & Hdecode). rewrite E.
  destruct (Z.eqb_spec (status_code response) 200) as [H200|_].
  - destruct (Hdecode H200) as (image & bytes & surface & E1 & E2 & E3).
    rewrite E1. simpl. rewrite E2. simpl. rewrite E3. simpl.
    eexists _, _, []. split; [reflexivity|]. simpl. now rewrite app_nil_r.
  - eexists _, _, []. split; [reflexivity|]. simpl. now rewrite app_nil_r.
Qed.

Lemma blit_lines_quiet (lines : list string) :
  forall y, yields (blit_lines lines y) (fun _ evs => evs = [] /\ True).
Proof.
  induction lines as [|line rest IH]; intros y; simpl.
  - now apply yields_ret.
  - apply (yields_after _ _ (fun _ => True)); [quiet_emit | intros _ _; apply IH].
Qed.

Lemma wrap_description_quiet (d : Dict) :
  (forall z, dict_get "description" d <> Some (VInt z)) ->
  yields (wrap_description w
            (py_or (dict_get_default "description" (VStr "No description available") d)
                   (VStr "No description available")))
         (fun _ evs => evs = [] /\ True).
Proof.
  intros Hd. unfold dict_get_default.
  destruct (dict_get "description" d) as [[|t|z]|] eqn:E.
  - now apply yields_ret.
  - unfold py_or. destruct (truthy (VStr t)); now apply yields_ret.
  - now elim (Hd z).
  - now apply yields_ret.
Qed.

Lemma display_info_yields (d : Dict) :
  slide_ok d ->
  yields (display_info w d) (fun _ evs => evs = [EvUpdate (SlideScreen d)]).
Proof.
  intros ((fanart_url & Hf) & (poster_url & Hp) & (title & Ht) & Hd).
  unfold display_info, dict_item. rewrite Hf, Hp, Ht.
  apply (yields_after _ _ (fun _ => True)); [quiet_emit | intros _ _].
  apply (yields_after _ _ (fun _ => True)); [now apply yields_ret | intros url _].
  apply (yields_after _ _ (fun _ => True)); [apply fetch_poster_quiet | intros fanart _].
  apply (yields_after _ _ (fun _ => True)); [destruct fanart; quiet_emit | intros _ _].
  apply (yields_after _ _ (fun _ => True)); [quiet_emit | intros _ _].
  apply (yields_after _ _ (fun _ => True)); [now apply yields_ret | intros url' _].
  apply (yields_after _ _ (fun _ => True)); [apply fetch_poster_quiet | intros poster _].
  apply (yields_after _ _ (fun _ => True));
    [destruct poster; [quiet_emit | now apply yields_ret] | intros _ _].
  apply (yields_after _ _ (fun v => v = VStr title)); [now apply yields_ret | intros v ->].
  apply (yields_after _ _ (fun _ => True)); [now apply yields_ret | intros title' _].
  apply (yields_after _ _ (fun _ => True)); [quiet_emit | intros _ _].
  apply (yields_after _ _ (fun _ => True)); [quiet_emit | intros _ _].
  apply (yields_after _ _ (fun _ => True));
    [now apply wrap_description_quiet | intros lines _].
  apply (yields_after _ _ (fun _ => True)); [apply blit_lines_quiet | intros y _].
  apply (yields_after _ _ (fun _ => True)).
  { destruct (is_show_or_season d); [|now apply yields_ret].
    apply (yields_after _ _ (fun _ => True)); [quiet_emit | intros _ _].
    apply (yields_after _ _ (fun _ => True)); [quiet_emit | intros _ _].
    now apply yields_ret. }
  intros y' _.
  apply (yields_after _ _ (fun _ => True)).
  { destruct (dict_has "user" d && dict_has "transcode" d); [|now apply yields_ret].
    apply (yields_after _ _ (fun _ => True)); [quiet_emit | intros _ _].
    quiet_emit. }
  intros _ _. now apply yields_emit.
Qed.

Lemma time_sleep_yields :
  yields (time_sleep (DISPLAY_TIME w)) (fun _ evs => evs = [EvSleep (DISPLAY_TIME w)]).
Proof. unfold time_sleep. rewrite Hsleep. now apply yields_emit. Qed.

Lemma get_currently_playing_yields :
  yields (get_currently_playing w)
    (fun now_playing evs =>
       evs = [] /\
       (List.length now_playing = List.length sessions /\ Forall slide_ok now_playing)).
Proof.
  intros s. unfold get_currently_playing, bind, ext. rewrite Hsessions.
  destruct (sessions_loop_ok w sessions Hdescribable []
              {| calls := S (calls s); log := log s |})
    as (now_playing & s' & E & L & Hlen & Hok).
  exists now_playing, s', []. simpl in E, L. rewrite L, app_nil_r. auto.
Qed.

Lemma get_last_added_yields :
  yields (get_last_added w)
    (fun slides evs =>
       evs = [] /\
       Forall2 entry_of
         (filter supported (py_slice_to (NUM_RECENT_ITEMS w) entries)) slides).
Proof.
  intros s.
  destruct (get_last_added_total w entries s (Hrecent (calls s)))
    as (slides & s' & E & L & H).
  exists slides, s', []. rewrite L, app_nil_r. auto.
Qed.

Lemma display_time_and_info_yields :
  yields (display_time_and_info w) (fun _ evs => evs = [EvUpdate IdleScreen]).
Proof.
  destruct Hsections as [Hsection Hall].
  unfold display_time_and_info.
  apply (yields_after _ _ (fun _ => True));
    [apply yields_ext; intros n; eauto | intros now _].
  destruct (font_size w large_font (strftime w now (TIME_FORMAT w))) as [text_w text_h].
  apply (yields_after _ _ (fun _ => True)).
  { apply yields_ext. intros n. destruct (Hsection n "Movies"%string) as (x & ->). eauto. }
  intros movies_section _.
  apply (yields_after _ _ (fun _ => True)).
  { apply yields_ext. intros n. destruct (Hsection n "TV Shows"%string) as (x & ->). eauto. }
  intros tv_shows_section _.
  apply (yields_after _ _ (fun _ => True)).
  { apply yields_ext. intros n. destruct (Hall n movies_section) as (x & ->). eauto. }
  intros movies _.
  apply (yields_after _ _ (fun _ => True)).
  { apply yields_ext. intros n. destruct (Hall n tv_shows_section) as (x & ->). eauto. }
  intros tv_shows _.
  apply (yields_after _ _ (fun _ => True)).
  { apply (yields_weaken _ _ _ get_currently_playing_yields). tauto. }
  intros now_playing _.
  apply (yields_after _ _ (fun _ => True)); [quiet_emit | intros _ _].
  apply (yields_after _ _ (fun _ => True)); [quiet_emit | intros _ _].
  apply (yields_after _ _ (fun _ => True)); [quiet_emit | intros _ _].
  apply (yields_after _ _ (fun _ => True)); [quiet_emit | intros _ _].
  apply (yields_after _ _ (fun _ => True)); [quiet_emit | intros _ _].
  now apply yields_emit.
Qed.

Lemma bring_window_to_front_quiet :
  yields (bring_window_to_front w) (fun _ evs => evs = [] /\ True).
Proof.
  unfold bring_window_to_front.
  apply (yields_after _ _ (fun _ => True));
    [apply yields_ext; intros n; eauto | intros windows _].
  destruct windows as [|win rest]; [now apply yields_ret|].
  apply (yields_after _ _ (fun _ => True)).
  { destruct (isMinimized win); [quiet_emit | now apply yields_ret]. }
  intros _ _.
  apply (yields_after _ _ (fun _ => True));
    [apply yields_ext; intros n; eauto | intros hwnd _].
  destruct (hwnd =? 0); [now apply yields_ret | quiet_emit].
Qed.

(** The [for] loop shows every slide for the full dwell, whatever the
    event checks find; they only decide the flag it hands back. *)
Lemma rotate_yields (media : list Dict) :
  Forall slide_ok media ->
  forall running,
  yields (rotate w media running)
    (fun running' evs =>
       exists polls,
         List.length polls = List.length media /\
         evs = flat_map (slide_dwell_poll (DISPLAY_TIME w)) (combine media polls) /\
         running' = running && forallb (fun p => negb (cancels p)) polls).
Proof.
  induction 1 as [|d rest Hd _ IH]; intros running; simpl.
  - apply yields_ret. exists []. now rewrite andb_true_r.
  - eapply yields_bind; [exact (display_info_yields d Hd) | intros _ evs1 ->].
    eapply yields_bind; [exact time_sleep_yields | intros _ evs2 ->].
    eapply yields_bind.
    { apply (yields_ext _ (fun events evs => evs = [])). intros n. eauto. }
    intros events evs3 ->.
    eapply yields_bind.
    { apply (yields_emit _ (fun _ evs => evs = [EvPoll events])). reflexivity. }
    intros _ evs4 ->.
    apply (yields_weaken _ _ _ (IH (handle_events events running))).
    intros running' evs (polls & Hlen & -> & ->).
    exists (events :: polls). simpl. split; [now rewrite Hlen|]. split; [reflexivity|].
    rewrite handle_events_cancels. now rewrite andb_assoc.
Qed.

(** One pass of [while running] in a steady world. *)
Lemma cycle_yields :
  yields (cycle w)
    (fun running evs =>
       exists slides polls,
         (sessions = [] ->
          Forall2 entry_of
            (filter supported (py_slice_to (NUM_RECENT_ITEMS w) entries)) slides) /\
         List.length polls = List.length slides /\
         evs = flat_map (slide_dwell_poll (DISPLAY_TIME w)) (combine slides polls)
               ++ [EvUpdate IdleScreen; EvSleep (DISPLAY_TIME w)] /\
         running = forallb (fun p => negb (cancels p)) polls).
Proof.
  unfold cycle.
  apply (yields_after _ _ (fun _ => True)); [apply bring_window_to_front_quiet | intros _ _].
  apply (yields_after _ _ _ _ get_currently_playing_yields).
  intros now_playing [Hlen Hplaying].
  apply (yields_after _ _
           (fun slides =>
              Forall slide_ok slides /\
              (sessions = [] ->
               Forall2 entry_of
                 (filter supported (py_slice_to (NUM_RECENT_ITEMS w) entries)) slides))).
  { destruct now_playing as [|d rest].
    - apply (yields_weaken _ _ _ get_last_added_yields).
      intros slides evs [-> Hslides]. split; [reflexivity|]. split; [|auto].
      clear -Hslides. induction Hslides; constructor; eauto using entry_of_slide_ok.
    - apply yields_ret. split; [reflexivity|]. split; [exact Hplaying|].
      intros ->. discriminate Hlen. }
  intros slides [Hok Hslides].
  eapply yields_bind; [exact (rotate_yields slides Hok true) | ].
  intros running evs1 (polls & Hpolls & -> & ->).
  eapply yields_bind; [exact display_time_and_info_yields | intros _ evs2 ->].
  eapply yields_bind; [exact time_sleep_yields | intros _ evs3 ->].
  apply yields_ret. exists slides, polls.
  repeat split; assumption.
Qed.

End Steady.

(** ** The example worlds are steady *)

Lemma steady_world_of (sessions : list Session) (entries : list LibraryEntry)
    (events : nat -> list PgEvent) :
  Forall describable sessions ->
  steady (world_of (inr sessions) (inr entries) not_found events) sessions entries.
Proof.
  intros Hd. repeat split; simpl; eauto.
  intros n url. eexists. split; [reflexivity|]. simpl. discriminate.
Qed.

Lemma screens_of_timeline (l : list Event) :
  screens_and_dwells l = filter is_screen_or_dwell (timeline l).
Proof.
  unfold screens_and_dwells, timeline.
  induction l as [|e l IH]; [reflexivity|].
  destruct e; simpl; now rewrite IH.
Qed.

Lemma screens_of_rotation (seconds : Q) (slides : list Dict) :
  forall polls,
  List.length polls = List.length slides ->
  filter is_screen_or_dwell (flat_map (slide_dwell_poll seconds) (combine slides polls))
  = flat_map (slide_dwell seconds) slides.
Proof.
  induction slides as [|d slides IH]; intros [|p polls] Hlen; try discriminate; simpl.
  - reflexivity.
  - rewrite IH; [reflexivity | now injection Hlen].
Qed.

Lemma forallb_not_cancels (polls : list (list PgEvent)) :
  existsb cancels polls = true ->
  forallb (fun p => negb (cancels p)) polls = false.
Proof.
  induction polls as [|p polls IH]; simpl; [discriminate|].
  destruct (cancels p); simpl; auto.
Qed.

Lemma py_slice_to_firstn {A : Type} (n : Z) (l : list A) :
  0 <= n -> py_slice_to n l = firstn (Z.to_nat n) l.
Proof.
  intros Hn. unfold py_slice_to.
  destruct (Z.leb_spec 0 n); [reflexivity | lia].
Qed.

(** ** main_loop *)

(** C2, as the code has it.  Nothing in [main_loop] catches a failure of
    the catalog: when [plex.sessions()] raises, or when it returns no
    session and [recentlyAdded()] raises, the exception leaves the pass
    before any screen is shown, the idle screen included, and leaves
    [main_loop] with it. *)
Theorem catalog_failure_propagates (w : World) (e : Exc) (s : State) :
  (forall n, plex_sessions w n = inl e) \/
  ((forall n, plex_sessions w n = inr []) /\
   (forall n, plex_recentlyAdded w n = inl e)) ->
  exists s',
    cycle w s = Raise e s' /\
    timeline (log s') = timeline (log s) /\
    forall fuel, main_loop w (S fuel) s = Raise e s'.
Proof.
  intros H.
  destruct (bring_window_to_front_quiet w s) as (u & s1 & evs & E1 & T1 & [-> _]).
  rewrite app_nil_r in T1.
  assert (Hcycle : exists s', cycle w s = Raise e s' /\ timeline (log s') = timeline (log s)).
  { unfold cycle, bind at 1. rewrite E1.
    unfold get_currently_playing, bind, ext.
    destruct H as [Hs | [Hs Hr]]; rewrite Hs.
    - eexists. split; [reflexivity | exact T1].
    - simpl. unfold get_last_added, bind, ext. simpl. rewrite Hr.
      eexists. split; [reflexivity | exact T1]. }
  destruct Hcycle as (s' & Ec & Tc).
  exists s'. repeat split; [exact Ec | exact Tc |].
  intros fuel. unfold main_loop, bind. simpl. unfold bind. now rewrite Ec.
Qed.

Lemma catalog_failure_propagates_witness :
  exists s',
    cycle server_down_world start = Raise (LibraryError "ConnectionError") s' /\
    timeline (log s') = timeline (log start) /\
    forall fuel,
      main_loop server_down_world (S fuel) start
        = Raise (LibraryError "ConnectionError") s'.
Proof.
  apply (catalog_failure_propagates server_down_world
           (LibraryError "ConnectionError") start).
  left. intros n. reflexivity.
Defined.

(** The server is down: the pass raises instead of showing the idle
    screen. *)
Lemma server_down_no_idle_screen : ~ falls_back_to_idle server_down_world start.
Proof.
  intros (s' & E & _). vm_compute in E. discriminate E.
Qed.

(** The window is closed during the first dwell: the check after that
    dwell finds [QUIT], and two more slides and the idle screen follow. *)
Lemma closing_is_not_prompt : ~ cancellation_is_prompt closing_world.
Proof.
  intros H.
  destruct (main_loop closing_world 1 start) as [left_loop s'|e s'] eqn:E;
    vm_compute in E; [|discriminate E].
  specialize (H 1%nat left_loop s'). unfold stops_at_check in H.
  injection E as <- <-.
  specialize (H eq_refl). simpl in H.
  match type of H with
  | forall before events after, ?a :: ?b :: ?c :: ?rest = _ -> _ =>
      specialize (H [a; b] [QUIT] rest eq_refl eq_refl)
  end.
  inversion H as [|x l Hx _]. discriminate Hx.
Qed.

(** C8, as the code has it.  In a pass where nothing is being played and
    nothing fails, the loop shows one slide for each entry of type
    ['movie'], ['show'] or ['season'] among the first [NUM_RECENT_ITEMS]
    entries of [recentlyAdded()], in the order of the entries, each for the
    dwell time, and then the idle screen once, for the dwell time. *)
Theorem recently_added_pass (w : World) (entries : list LibraryEntry) (s : State) :
  steady w [] entries ->
  0 <= NUM_RECENT_ITEMS w ->
  exists slides running s',
    cycle w s = Ok running s' /\
    Forall2 entry_of
      (filter supported (firstn (Z.to_nat (NUM_RECENT_ITEMS w)) entries)) slides /\
    screens_and_dwells (log s') =
      screens_and_dwells (log s)
      ++ flat_map (slide_dwell (DISPLAY_TIME w)) slides
      ++ [EvUpdate IdleScreen; EvSleep (DISPLAY_TIME w)].
Proof.
  intros Hsteady Hnum.
  destruct (cycle_yields w [] entries Hsteady s)
    as (running & s' & evs & E & T & slides & polls & Hslides & Hlen & -> & _).
  exists slides, running, s'. split; [exact E|]. split.
  - rewrite <- (py_slice_to_firstn _ _ Hnum). now apply Hslides.
  - rewrite (screens_of_timeline (log s')), (screens_of_timeline (log s)), T.
    rewrite !filter_app. now rewrite (screens_of_rotation _ _ _ Hlen).
Qed.

Lemma recently_added_pass_witness :
  steady calm_world [] three_movies /\
  0 <= NUM_RECENT_ITEMS calm_world /\
  exists slides running s',
    cycle calm_world start = Ok running s' /\
    Forall2 entry_of
      (filter supported (firstn (Z.to_nat (NUM_RECENT_ITEMS calm_world)) three_movies))
      slides /\
    screens_and_dwells (log s') =
      screens_and_dwells (log start)
      ++ flat_map (slide_dwell (DISPLAY_TIME calm_world)) slides
      ++ [EvUpdate IdleScreen; EvSleep (DISPLAY_TIME calm_world)].
Proof.
  assert (H1 : steady calm_world [] three_movies)
    by (apply steady_world_of; constructor).
  assert (H2 : 0 <= NUM_RECENT_ITEMS calm_world) by (simpl; lia).
  split; [exact H1|]. split; [exact H2|].
  exact (recently_added_pass calm_world three_movies start H1 H2).
Defined.

(** The catalog returns two entries, an episode and a movie, and nothing
    fails; the pass shows one slide, not two. *)
Lemma episode_entry_not_shown :
  steady episode_world [] [episode_entry "Pilot"; movie_entry "Alien"] /\
  ~ shows_every_entry episode_world
      [episode_entry "Pilot"; movie_entry "Alien"] start.
Proof.
  split; [apply steady_world_of; constructor|].
  intros (slides & running & s' & E & Hlen & Hshown).
  vm_compute in E. injection E as <- <-.
  destruct slides as [|a [|b [|c slides]]]; try discriminate Hlen.
  vm_compute in Hshown. discriminate Hshown.
Qed.

(** * Further properties of the code *)

(** ** wrap_text *)

Section WrapMore.

Variable measure : string -> Z.
Variable max_width : Z.

Lemma append_space_not_nil (a w : string) : (a ++ w ++ " ")%string <> ""%string.
Proof.
  intros H. apply append_eq_nil in H as [_ H].
  apply append_eq_nil in H as [_ H]. discriminate H.
Qed.

(** Once the current line holds a word, the loop commits non-empty lines
    only and ends on a non-empty current line. *)
Lemma wrap_loop_nonempty (ws : list string) :
  forall lines current,
  current <> ""%string ->
  exists more,
    fst (wrap_loop measure max_width ws lines current) = lines ++ more /\
    Forall (fun l => l <> ""%string) more /\
    snd (wrap_loop measure max_width ws lines current) <> ""%string.
Proof.
  induction ws as [|x ws IH]; intros lines current Hc; simpl.
  - exists []. rewrite app_nil_r. auto.
  - destruct (measure (current ++ x ++ " ")%string <? max_width).
    + apply IH. apply append_space_not_nil.
    + destruct (IH (lines ++ [current]) (x ++ " ")%string) as (more & E & Hm & Hs).
      { apply (append_space_not_nil ""%string). }
      exists (current :: more). rewrite E, <- app_assoc. auto.
Qed.

(** Every run of leading words passes the test: the loop never breaks. *)
Lemma wrap_loop_fits (words ws done : list string) :
  words = done ++ ws ->
  (forall k, measure (spaced (firstn k words)) < max_width) ->
  wrap_loop measure max_width ws [] (spaced done) = ([], spaced words).
Proof.
  intros -> Hfit. revert done Hfit.
  induction ws as [|x ws IH]; intros done Hfit; simpl.
  - now rewrite app_nil_r.
  - assert (E : (spaced done ++ x ++ " ")%string = spaced (done ++ [x]))
      by now rewrite spaced_app, spaced_one.
    rewrite E.
    pose proof (Hfit (List.length (done ++ [x]))) as Hk.
    replace (done ++ x :: ws) with ((done ++ [x]) ++ ws) in Hk
      by now rewrite <- app_assoc.
    rewrite firstn_app, firstn_all, Nat.sub_diag, firstn_O, app_nil_r in Hk.
    destruct (Z.ltb_spec (measure (spaced (done ++ [x]))) max_width) as [_|Hge]; [|lia].
    rewrite (IH (done ++ [x])); rewrite <- app_assoc; [reflexivity | exact Hfit].
Qed.

End WrapMore.

(** X2.  A non-empty text gives at least one non-empty line, and no line
    of the result is empty except the first: [wrap_text] starts with an
    empty line exactly when the first word, with its space, does not pass
    the width test. *)
Theorem wrap_text_empty_first_line (measure : string -> Z) (max_width : Z)
    (text : string) :
  text <> ""%string ->
  exists rest,
    rest <> [] /\ Forall (fun l => l <> ""%string) rest /\
    if measure (hd ""%string (split_space text) ++ " ")%string <? max_width
    then wrap_text (Some text) measure max_width = rest
    else wrap_text (Some text) measure max_width = ""%string :: rest.
Proof.
  intros Htext. destruct text as [|c t]; [congruence|].
  unfold wrap_text.
  destruct (split_space (String c t)) as [|x ws] eqn:Ew;
    [now apply split_space_not_nil in Ew|].
  simpl hd. simpl wrap_loop.
  destruct (measure (x ++ " ")%string <? max_width).
  - destruct (wrap_loop_nonempty measure max_width ws [] (x ++ " ")%string)
      as (more & E & Hm & Hs); [apply (append_space_not_nil ""%string)|].
    destruct (wrap_loop measure max_width ws [] (x ++ " ")) as [lines current].
    simpl in E, Hs. subst lines.
    destruct (String.eqb_spec current "") as [Hn|_]; [contradiction|].
    exists (more ++ [current]). repeat split.
    + intros H. now apply app_eq_nil in H as [_ H].
    + apply Forall_app. split; [exact Hm | now constructor].
  - destruct (wrap_loop_nonempty measure max_width ws [""%string] (x ++ " ")%string)
      as (more & E & Hm & Hs); [apply (append_space_not_nil ""%string)|].
    destruct (wrap_loop measure max_width ws [""%string] (x ++ " ")) as [lines current].
    simpl in E, Hs. subst lines.
    destruct (String.eqb_spec current "") as [Hn|_]; [contradiction|].
    exists (more ++ [current]). repeat split.
    + intros H. now apply app_eq_nil in H as [_ H].
    + apply Forall_app. split; [exact Hm | now constructor].
Qed.

Lemma wrap_text_empty_first_line_witness :
  "abcdefgh ij"%string <> ""%string /\
  exists rest,
    rest <> [] /\ Forall (fun l => l <> ""%string) rest /\
    if ten_px (hd ""%string (split_space "abcdefgh ij") ++ " ")%string <? 50
    then wrap_text (Some "abcdefgh ij"%string) ten_px 50 = rest
    else wrap_text (Some "abcdefgh ij"%string) ten_px 50 = ""%string :: rest.
Proof.
  assert (H : "abcdefgh ij"%string <> ""%string) by discriminate.
  split; [exact H|].
  exact (wrap_text_empty_first_line ten_px 50 "abcdefgh ij" H).
Defined.

(** X3.  A text that fits is not broken: when every run of leading words,
    each with its space, measures below [max_width], the result is the
    single line made of the text and one space. *)
Theorem wrap_text_single_line (measure : string -> Z) (max_width : Z)
    (text : string) :
  text <> ""%string ->
  (forall k, measure (spaced (firstn k (split_space text))) < max_width) ->
  wrap_text (Some text) measure max_width = [(text ++ " ")%string].
Proof.
  intros Htext Hfit. destruct text as [|c t]; [congruence|].
  unfold wrap_text.
  change ""%string with (spaced []) at 1.
  rewrite (wrap_loop_fits measure max_width (split_space (String c t))
             (split_space (String c t)) [] eq_refl Hfit).
  rewrite spaced_split_space. reflexivity.
Qed.

Lemma wrap_text_single_line_witness :
  "the fox"%string <> ""%string /\
  (forall k, ten_px (spaced (firstn k (split_space "the fox"))) < 500) /\
  wrap_text (Some "the fox"%string) ten_px 500 = ["the fox "%string].
Proof.
  assert (H1 : "the fox"%string <> ""%string) by discriminate.
  assert (H2 : forall k, ten_px (spaced (firstn k (split_space "the fox"))) < 500).
  { intros [|[|[|k]]]; reflexivity. }
  split; [exact H1|]. split; [exact H2|].
  exact (wrap_text_single_line ten_px 500 "the fox" H1 H2).
Defined.

(** ** Rules for [logs], [frames] and [fails] *)

Lemma silent_raise {A : Type} (e : Exc) : silent (@raise A e).
Proof. intros s. reflexivity. Qed.

Lemma silent_lift {A : Type} (r : Exc + A) : silent (lift r).
Proof. destruct r; [apply silent_raise | apply silent_ret]. Qed.

Lemma logs_silent {A : Type} (m : M A) (Q : Event -> Prop) :
  silent m -> logs m (fun _ => True) Q.
Proof.
  intros Hm s. exists []. rewrite app_nil_r. repeat split; auto.
Qed.

Lemma logs_ret {A : Type} (a : A) (P : A -> Prop) (Q : Event -> Prop) :
  P a -> logs (ret a) P Q.
Proof.
  intros Ha s. exists []. simpl. rewrite app_nil_r. repeat split; auto.
  intros a' s' E. injection E as <- _. exact Ha.
Qed.

Lemma logs_emit (e : Event) (Q : Event -> Prop) :
  Q e -> logs (emit e) (fun _ => True) Q.
Proof. intros He s. exists [e]. simpl. repeat split; auto. Qed.

Lemma logs_bind {A B : Type} (m : M A) (f : A -> M B)
    (P1 : A -> Prop) (P : B -> Prop) (Q : Event -> Prop) :
  logs m P1 Q -> (forall a, P1 a -> logs (f a) P Q) -> logs (bind m f) P Q.
Proof.
  intros Hm Hf s. destruct (Hm s) as (evs1 & L1 & Q1 & H1). unfold bind.
  destruct (m s) as [a s1|e s1]; simpl in L1.
  - destruct (Hf a (H1 a s1 eq_refl) s1) as (evs2 & L2 & Q2 & H2).
    exists (evs1 ++ evs2). rewrite L2, L1, app_assoc.
    repeat split; [now apply Forall_app | exact H2].
  - exists evs1. simpl. repeat split; auto. discriminate.
Qed.

Lemma logs_weaken {A : Type} (m : M A) (P P' : A -> Prop) (Q Q' : Event -> Prop) :
  logs m P Q -> (forall a, P a -> P' a) -> (forall e, Q e -> Q' e) -> logs m P' Q'.
Proof.
  intros Hm HP HQ s. destruct (Hm s) as (evs & L & Hq & Hp).
  exists evs. repeat split; [exact L | | eauto].
  eapply Forall_impl; [exact HQ | exact Hq].
Qed.

Lemma frames_emit (Q : Event -> Prop) (k : ScreenKind) : frames (emit (EvUpdate k)) Q k.
Proof. intros s. exists []. split; [constructor | reflexivity]. Qed.

Lemma frames_after {A B : Type} (m : M A) (f : A -> M B)
    (P : A -> Prop) (Q : Event -> Prop) (k : ScreenKind) :
  logs m P Q -> (forall a, P a -> frames (f a) Q k) -> frames (bind m f) Q k.
Proof.
  intros Hm Hf s. destruct (Hm s) as (evs1 & L1 & Q1 & H1). unfold bind.
  destruct (m s) as [a s1|e s1]; simpl in L1.
  - destruct (Hf a (H1 a s1 eq_refl) s1) as (pre & Q2 & H2).
    exists (evs1 ++ pre). split; [now apply Forall_app|].
    destruct (f a s1) as [b s2|e s2]; rewrite H2, L1, <- !app_assoc; reflexivity.
  - exists evs1. auto.
Qed.

Lemma frames_logs {A : Type} (m : M A) (Q Q' : Event -> Prop) (k : ScreenKind) :
  frames m Q k -> (forall e, Q e -> Q' e) -> Q' (EvUpdate k) ->
  logs m (fun _ => True) Q'.
Proof.
  intros Hm HQ Hk s. destruct (Hm s) as (pre & Hpre & H).
  assert (Hpre' : Forall Q' pre) by (eapply Forall_impl; [exact HQ | exact Hpre]).
  destruct (m s) as [a s1|e s1]; simpl.
  - exists (pre ++ [EvUpdate k]). split; [exact H|]. split; [|auto].
    apply Forall_app. split; [exact Hpre' | now constructor].
  - exists pre. repeat split; auto.
Qed.

Lemma fails_raise {A : Type} (e : Exc) : fails (@raise A e).
Proof. intros s a s'. discriminate. Qed.

Lemma fails_now {A B : Type} (m : M A) (f : A -> M B) : fails m -> fails (bind m f).
Proof.
  intros Hm s b s' E. unfold bind in E.
  destruct (m s) as [a s1|e s1] eqn:Em; [now apply (Hm s a s1) | discriminate E].
Qed.

Lemma fails_later {A B : Type} (m : M A) (f : A -> M B) :
  (forall a, fails (f a)) -> fails (bind m f).
Proof.
  intros Hf s b s' E. unfold bind in E.
  destruct (m s) as [a s1|e s1]; [now apply (Hf a s1 b s') | discriminate E].
Qed.

Lemma fails_after_ret {A B : Type} (a : A) (f : A -> M B) :
  fails (f a) -> fails (bind (ret a) f).
Proof. intros Hf s b s' E. exact (Hf s b s' E). Qed.

(** ** The queries leave the log alone *)

Section Quiet.

Variable w : World.

Lemma fetch_poster_silent (url : PyVal) : silent (fetch_poster w url).
Proof.
  unfold fetch_poster.
  apply silent_bind; [apply silent_ext | intros response].
  destruct (status_code response =? 200); [|apply silent_ret].
  apply silent_bind; [apply silent_lift | intros image].
  apply silent_bind; [apply silent_lift | intros bytes].
  apply silent_bind; [apply silent_lift | intros surface; apply silent_ret].
Qed.

Lemma session_entry_silent (session : Session) : silent (session_entry w session).
Proof.
  unfold session_entry.
  apply silent_bind.
  - destruct (String.eqb (session_type session) "episode"); [|apply silent_ret].
    apply silent_bind; [apply silent_lift | intros head].
    apply silent_bind; [apply silent_lift | intros description; apply silent_ret].
  - intros [[fanart_url poster_url] description].
    apply silent_bind; [apply silent_ext | intros now; apply silent_ret].
Qed.

Lemma sessions_loop_silent (sessions : list Session) :
  forall now_playing, silent (sessions_loop w sessions now_playing).
Proof.
  induction sessions as [|session rest IH]; intros acc; simpl.
  - apply silent_ret.
  - apply silent_bind; [apply session_entry_silent | intros entry; apply IH].
Qed.

Lemma get_currently_playing_silent : silent (get_currently_playing w).
Proof.
  unfold get_currently_playing.
  apply silent_bind; [apply silent_ext | intros sessions; apply sessions_loop_silent].
Qed.

Lemma show_entry_silent (item : LibraryEntry) : silent (show_entry w item).
Proof.
  unfold show_entry.
  apply silent_try; [|intros e; apply silent_ret].
  apply silent_bind; [apply silent_ext | intros show].
  apply silent_try; [|intros e; apply silent_ret].
  apply silent_bind; [apply count_seasons_episodes_silent | intros [ns ne]; apply silent_ret].
Qed.

Lemma last_added_loop_silent (items : list LibraryEntry) :
  forall recently_added, silent (last_added_loop w items recently_added).
Proof.
  induction items as [|item rest IH]; intros acc; simpl.
  - apply silent_ret.
  - destruct (_ || _).
    + apply silent_bind; [apply show_entry_silent | intros entry; apply IH].
    + destruct (String.eqb (item_type item) "movie"); apply IH.
Qed.

Lemma get_last_added_silent : silent (get_last_added w).
Proof.
  unfold get_last_added.
  apply silent_bind; [apply silent_ext | intros entries; apply last_added_loop_silent].
Qed.

End Quiet.

(** ** display_info, frame by frame *)

Section Drawing.

Variable w : World.

Lemma dict_item_silent (k : string) (d : Dict) : silent (dict_item k d).
Proof.
  unfold dict_item. destruct (dict_get k d); [apply silent_ret | apply silent_raise].
Qed.

Lemma as_text_silent (v : PyVal) : silent (as_text v).
Proof. destruct v; first [apply silent_ret | apply silent_raise]. Qed.

Lemma wrap_description_silent (description : PyVal) :
  silent (wrap_description w description).
Proof.
  destruct description as [|t|z]; simpl; try apply silent_ret.
  destruct (z =? 0); [apply silent_ret | apply silent_raise].
Qed.

(** The description rows go down from [y] in steps of 30. *)
Lemma blit_lines_logs (lines : list string) :
  forall y,
  0 <= y -> y + 30 * Z.of_nat (List.length lines) <= 450 ->
  logs (blit_lines lines y)
    (fun y' => y' = y + 30 * Z.of_nat (List.length lines)) draws_on_screen.
Proof.
  induction lines as [|line rest IH]; intros y Hy Hlen.
  - apply logs_ret. simpl. lia.
  - simpl blit_lines. simpl List.length in *.
    eapply logs_bind; [apply logs_emit; simpl; lia | intros _ _].
    eapply logs_weaken; [apply (IH (y + 30)); lia | intros y' ->; lia | auto].
Qed.

Lemma display_info_frames (d : Dict) :
  frames (display_info w d) draws_on_screen (SlideScreen d).
Proof.
  unfold display_info.
  eapply frames_after; [apply logs_emit; exact I | intros _ _].
  eapply frames_after; [apply logs_silent, dict_item_silent | intros fanart_url _].
  eapply frames_after; [apply logs_silent, fetch_poster_silent | intros fanart _].
  eapply frames_after.
  { destruct fanart; apply logs_emit; simpl; [lia | exact I]. }
  intros _ _.
  eapply frames_after; [apply logs_emit; simpl; lia | intros _ _].
  eapply frames_after; [apply logs_silent, dict_item_silent | intros poster_url _].
  eapply frames_after; [apply logs_silent, fetch_poster_silent | intros poster _].
  eapply frames_after.
  { destruct poster; [apply logs_emit; simpl; lia | now apply logs_ret]. }
  intros _ _.
  eapply frames_after; [apply logs_silent, dict_item_silent | intros title _].
  eapply frames_after; [apply logs_silent, as_text_silent | intros title' _].
  eapply frames_after; [apply logs_emit; simpl; lia | intros _ _].
  eapply frames_after; [apply logs_emit; simpl; lia | intros _ _].
  eapply frames_after; [apply logs_silent, wrap_description_silent | intros lines _].
  eapply (frames_after _ _ (fun y => 140 <= y <= 290)).
  { pose proof (firstn_le_length 5 lines) as Hfive.
    eapply logs_weaken; [apply blit_lines_logs; lia | intros y ->; lia | auto]. }
  intros y Hy.
  eapply (frames_after _ _ (fun y' => 140 <= y' <= 370)).
  { destruct (is_show_or_season d); [|apply logs_ret; lia].
    eapply logs_bind; [apply logs_emit; simpl; lia | intros _ _].
    eapply logs_bind; [apply logs_emit; simpl; lia | intros _ _].
    apply logs_ret. lia. }
  intros y' Hy'.
  eapply (frames_after _ _ (fun _ => True)).
  { destruct (dict_has "user" d && dict_has "transcode" d); [|now apply logs_ret].
    eapply logs_bind; [apply logs_emit; simpl; lia | intros _ _].
    apply logs_emit. simpl. lia. }
  intros _ _. apply frames_emit.
Qed.

Lemma display_time_and_info_frames :
  frames (display_time_and_info w) is_drawing IdleScreen.
Proof.
  unfold display_time_and_info.
  eapply frames_after; [apply logs_silent, silent_ext | intros now _].
  destruct (font_size w large_font (strftime w now (TIME_FORMAT w))) as [text_w text_h].
  eapply frames_after; [apply logs_silent, silent_ext | intros movies_section _].
  eapply frames_after; [apply logs_silent, silent_ext | intros tv_shows_section _].
  eapply frames_after; [apply logs_silent, silent_ext | intros movies _].
  eapply frames_after; [apply logs_silent, silent_ext | intros tv_shows _].
  eapply frames_after;
    [apply logs_silent, get_currently_playing_silent | intros now_playing _].
  eapply frames_after; [apply logs_emit; reflexivity | intros _ _].
  eapply frames_after; [apply logs_emit; reflexivity | intros _ _].
  eapply frames_after; [apply logs_emit; reflexivity | intros _ _].
  eapply frames_after; [apply logs_emit; reflexivity | intros _ _].
  eapply frames_after; [apply logs_emit; reflexivity | intros _ _].
  apply frames_emit.
Qed.

End Drawing.

Lemma draws_on_screen_drawing (e : Event) : draws_on_screen e -> is_drawing e.
Proof. destruct e; simpl; intros H; try contradiction; reflexivity. Qed.

(** X4.  Whatever the dictionary and whatever the images, [display_info]
    puts every blit with its top-left corner on the 800 by 480 screen: no
    further right than x = 302, and, because only five description lines
    are drawn, no lower than y = 420, the Status row of a slide that has
    both the show rows and the viewer rows. *)
Theorem display_info_stays_on_screen (w : World) (d : Dict) (s : State) :
  exists evs,
    log (outcome_state (display_info w d s)) = log s ++ evs /\
    forall what x y, In (EvBlit what x y) evs -> 0 <= x <= 302 /\ 0 <= y <= 420.
Proof.
  destruct (display_info_frames w d s) as (pre & Hpre & H).
  assert (Hin : forall what x y, In (EvBlit what x y) pre -> 0 <= x <= 302 /\ 0 <= y <= 420).
  { intros what x y Hi. exact (proj1 (Forall_forall _ _) Hpre _ Hi). }
  destruct (display_info w d s) as [u s1|e s1]; simpl; rewrite H.
  - exists (pre ++ [EvUpdate (SlideScreen d)]). split; [reflexivity|].
    intros what x y Hi. apply in_app_or in Hi as [Hi|[Hi|[]]]; [eauto | discriminate Hi].
  - exists pre. auto.
Qed.

(** X5.  Neither drawing function presents a half-drawn frame: the call
    of [pygame.display.update()] is the last thing [display_info] and
    [display_time_and_info] do, once, after all the drawing; when one of
    them raises, it has drawn at most and presented nothing. *)
Theorem frame_presented_last (w : World) (d : Dict) (s : State) :
  (exists drawn,
     Forall is_drawing drawn /\
     match display_info w d s with
     | Ok _ s' => log s' = log s ++ drawn ++ [EvUpdate (SlideScreen d)]
     | Raise _ s' => log s' = log s ++ drawn
     end) /\
  (exists drawn,
     Forall is_drawing drawn /\
     match display_time_and_info w s with
     | Ok _ s' => log s' = log s ++ drawn ++ [EvUpdate IdleScreen]
     | Raise _ s' => log s' = log s ++ drawn
     end).
Proof.
  split.
  - destruct (display_info_frames w d s) as (pre & Hpre & H).
    exists pre. split; [|exact H].
    eapply Forall_impl; [exact draws_on_screen_drawing | exact Hpre].
  - exact (display_time_and_info_frames w s).
Qed.

(** X6.  [display_info] returns only for a dictionary that has the keys
    ['fanart_url'], ['poster_url'] and ['title'], the title being a string
    or [None]: without one of the keys the subscript raises [KeyError],
    and a title of another type is refused by [Font.render], whatever the
    world answers. *)
Theorem display_info_needs_keys (w : World) (d : Dict) (s s' : State) (u : unit) :
  display_info w d s = Ok u s' ->
  (exists v, dict_get "fanart_url" d = Some v) /\
  (exists v, dict_get "poster_url" d = Some v) /\
  (dict_get "title" d = Some VNone \/ exists t, dict_get "title" d = Some (VStr t)).
Proof.
  intros E.
  destruct (dict_get "fanart_url" d) as [fanart_url|] eqn:Ef.
  2:{ exfalso. revert E. apply fails_later. intros _.
      unfold dict_item. rewrite Ef. apply fails_now, fails_raise. }
  destruct (dict_get "poster_url" d) as [poster_url|] eqn:Ep.
  2:{ exfalso. revert E. unfold display_info.
      do 5 (apply fails_later; intros ?).
      unfold dict_item. rewrite Ep. apply fails_now, fails_raise. }
  split; [eauto|]. split; [eauto|].
  destruct (dict_get "title" d) as [[|t|z]|] eqn:Et.
  - left. reflexivity.
  - right. eauto.
  - exfalso. revert E. unfold display_info.
    do 8 (apply fails_later; intros ?).
    unfold dict_item. rewrite Et.
    apply fails_after_ret, fails_now, fails_raise.
  - exfalso. revert E. unfold display_info.
    do 8 (apply fails_later; intros ?).
    unfold dict_item. rewrite Et. apply fails_now, fails_raise.
Qed.

(** ** get_currently_playing, session by session *)

Section SessionsMore.

Variable w : World.

Lemma session_cases (session : Session) :
  describable session \/ lacks_description session.
Proof.
  unfold describable, lacks_description.
  destruct (String.eqb_spec (session_type session) "episode") as [Hep|Hne].
  - destruct (grandparentTitle session), (session_summary session);
      first [left; intros _; split; discriminate | right; auto].
  - left. intros Hep. contradiction.
Qed.

Lemma session_entry_type_error (session : Session) (s : State) :
  lacks_description session -> session_entry w session s = Raise TypeError s.
Proof.
  intros [Hep Hnone]. unfold session_entry. rewrite Hep. simpl.
  destruct (grandparentTitle session) as [t|]; [|reflexivity].
  destruct Hnone as [Hn|Hn]; [discriminate Hn|]. rewrite Hn. reflexivity.
Qed.

Lemma sessions_loop_type_error (sessions : list Session) :
  Exists lacks_description sessions ->
  forall now_playing s,
  exists s', sessions_loop w sessions now_playing s = Raise TypeError s' /\
             log s' = log s.
Proof.
  induction sessions as [|session rest IH]; intros Hex acc s;
    [inversion Hex|]. simpl. unfold bind.
  destruct (session_cases session) as [Hd|Hl].
  - destruct (session_entry_ok w session s Hd) as (entry & s1 & E1 & L1 & _).
    rewrite E1. inversion Hex as [? ? Hl|? ? Hrest]; subst.
    + destruct Hl as [Hep Hl]. destruct (Hd Hep) as [Ht Hs].
      destruct Hl; contradiction.
    + destruct (IH Hrest (acc ++ [entry]) s1) as (s' & E & L).
      exists s'. split; [exact E | congruence].
  - rewrite (session_entry_type_error session s Hl). eauto.
Qed.

(** The loop over the sessions, for any relation the body establishes. *)
Lemma sessions_loop_rel (R : Session -> Dict -> Prop) :
  (forall session s, describable session ->
     exists entry s', session_entry w session s = Ok entry s' /\ R session entry) ->
  forall sessions, Forall describable sessions ->
  forall now_playing s,
  exists entries s',
    sessions_loop w sessions now_playing s = Ok (now_playing ++ entries) s' /\
    Forall2 R sessions entries.
Proof.
  intros Hbody sessions. induction 1 as [|session rest Hd _ IH]; intros acc s; simpl.
  - exists [], s. rewrite app_nil_r. split; [reflexivity | constructor].
  - destruct (Hbody session s Hd) as (entry & s1 & E1 & H1).
    destruct (IH (acc ++ [entry]) s1) as (entries & s2 & E2 & H2).
    exists (entry :: entries), s2. unfold bind. rewrite E1, E2, <- app_assoc.
    split; [reflexivity | now constructor].
Qed.

Lemma get_currently_playing_rel (R : Session -> Dict -> Prop)
    (sessions : list Session) (s : State) :
  (forall session s, describable session ->
     exists entry s', session_entry w session s = Ok entry s' /\ R session entry) ->
  plex_sessions w (calls s) = inr sessions ->
  Forall describable sessions ->
  exists now_playing s',
    get_currently_playing w s = Ok now_playing s' /\ Forall2 R sessions now_playing.
Proof.
  intros Hbody E Hd. unfold get_currently_playing, bind, ext. rewrite E.
  exact (sessions_loop_rel R Hbody sessions Hd [] _).
Qed.

Lemma session_entry_viewer (session : Session) (s : State) :
  describable session ->
  exists entry s',
    session_entry w session s = Ok entry s' /\ viewer_and_status session entry.
Proof.
  intros Hd. unfold session_entry, viewer_and_status.
  destruct (String.eqb_spec (session_type session) "episode") as [Hep|Hne].
  - destruct (Hd Hep) as [Ht Hs].
    destruct (grandparentTitle session) as [t|]; [|congruence].
    destruct (session_summary session) as [u|]; [|congruence].
    eexists _, _. split; [reflexivity|]. repeat split.
  - eexists _, _. split; [reflexivity|]. repeat split.
Qed.

Lemma session_entry_poster (session : Session) (s : State) :
  describable session ->
  exists entry s',
    session_entry w session s = Ok entry s' /\ poster_and_description w session entry.
Proof.
  intros Hd. unfold session_entry, poster_and_description.
  destruct (String.eqb_spec (session_type session) "episode") as [Hep|Hne].
  - destruct (Hd Hep) as [Ht Hs].
    destruct (grandparentTitle session) as [t|]; [|congruence].
    destruct (session_summary session) as [u|]; [|congruence].
    eexists _, _. split; [reflexivity|]. split; [reflexivity|].
    exists t, u. repeat split. simpl. now rewrite append_assoc.
  - eexists _, _. split; [reflexivity|]. repeat split.
Qed.

End SessionsMore.

(** X7.  [get_currently_playing] has no guard against a missing summary:
    if one episode among the sessions has no summary or no show title, the
    concatenation that builds its description raises [TypeError] and the
    whole call raises it; no dictionary is returned for the other sessions
    either. *)
Theorem currently_playing_type_error (w : World) (sessions : list Session) (s : State) :
  plex_sessions w (calls s) = inr sessions ->
  Exists lacks_description sessions ->
  exists s', get_currently_playing w s = Raise TypeError s' /\ log s' = log s.
Proof.
  intros E Hex. unfold get_currently_playing, bind, ext. rewrite E.
  exact (sessions_loop_type_error w sessions Hex [] _).
Qed.

Lemma currently_playing_type_error_witness :
  plex_sessions bare_episode_world (calls start)
    = inr [movie_session; bare_episode_session] /\
  Exists lacks_description [movie_session; bare_episode_session] /\
  exists s', get_currently_playing bare_episode_world start = Raise TypeError s' /\
             log s' = log start.
Proof.
  assert (H1 : plex_sessions bare_episode_world (calls start)
               = inr [movie_session; bare_episode_session]) by reflexivity.
  assert (H2 : Exists lacks_description [movie_session; bare_episode_session]).
  { right. left. split; [reflexivity | now right]. }
  split; [exact H1|]. split; [exact H2|].
  exact (currently_playing_type_error bare_episode_world _ start H1 H2).
Defined.


Lemma two_sessions_describable :
  Forall describable [episode_session (Some "/art/show"%string) None None; movie_session].
Proof.
  constructor; [intros _; split; discriminate|].
  constructor; [intros H; discriminate H | constructor].
Qed.


(** X9.  For an episode, the poster in the dictionary is the transcoded
    thumbnail of the show, or of the episode when the show has none, and
    the description is the show title, a colon and the summary.  For any
    other session the fanart is the transcoded art, or the thumbnail when
    there is no art, the poster is the transcoded thumbnail and the
    description is the summary as it is, [None] included. *)
Theorem currently_playing_poster (w : World) (sessions : list Session) (s : State) :
  plex_sessions w (calls s) = inr sessions ->
  Forall describable sessions ->
  exists now_playing s',
    get_currently_playing w s = Ok now_playing s' /\
    Forall2 (poster_and_description w) sessions now_playing.
Proof.
  intros E Hd.
  exact (get_currently_playing_rel w (poster_and_description w) sessions s
           (session_entry_poster w) E Hd).
Qed.

Lemma currently_playing_poster_witness :
  plex_sessions two_sessions_world (calls start)
    = inr [episode_session (Some "/art/show"%string) None None; movie_session] /\
  Forall describable [episode_session (Some "/art/show"%string) None None; movie_session] /\
  exists now_playing s',
    get_currently_playing two_sessions_world start = Ok now_playing s' /\
    Forall2 (poster_and_description two_sessions_world)
      [episode_session (Some "/art/show"%string) None None; movie_session] now_playing.
Proof.
  assert (H1 : plex_sessions two_sessions_world (calls start)
               = inr [episode_session (Some "/art/show"%string) None None; movie_session])
    by reflexivity.
  split; [exact H1|]. split; [exact two_sessions_describable|].
  exact (currently_playing_poster two_sessions_world _ start H1 two_sessions_describable).
Defined.

(** ** get_last_added, entry by entry *)

(** X10.  [get_last_added] raises exactly when [recentlyAdded()] itself
    raises, and then with that exception: whatever happens while a show,
    its seasons or its episodes are fetched stays inside the loop. *)
Theorem get_last_added_raises_iff (w : World) (e : Exc) (s s' : State) :
  get_last_added w s = Raise e s' <->
  plex_recentlyAdded w (calls s) = inl e /\ s' = called s.
Proof.
  split.
  - intros E.
    destruct (plex_recentlyAdded w (calls s)) as [e0|entries] eqn:Er.
    + unfold get_last_added, bind, ext in E. rewrite Er in E.
      injection E as <- <-. split; reflexivity.
    + destruct (get_last_added_total w entries s Er) as (slides & s1 & E1 & _).
      rewrite E1 in E. discriminate E.
  - intros [Er ->]. unfold get_last_added, bind, ext. now rewrite Er.
Qed.

Section Resolved.

Variable w : World.
Variable show : Show.
Variable seasons : list Season.
Variable episodes_of : Season -> list Episode.
Hypothesis Hseasons : forall n, show_seasons w n show = inr seasons.
Hypothesis Hepisodes : forall n season, season_episodes w n season = inr (episodes_of season).

Lemma sum_episodes_total (l : list Season) :
  forall total s,
  exists s', sum_episodes w l total s = Ok (total + total_episodes episodes_of l) s'.
Proof.
  induction l as [|season rest IH]; intros total s; simpl.
  - exists s. unfold ret. f_equal. lia.
  - unfold bind, ext. rewrite Hepisodes.
    destruct (IH (total + Z.of_nat (List.length (episodes_of season)))
                {| calls := S (calls s); log := log s |}) as (s' & E).
    exists s'. rewrite E. f_equal. lia.
Qed.

Lemma count_seasons_episodes_total (s : State) :
  exists s',
    count_seasons_episodes w show s
    = Ok (Z.of_nat (List.length seasons), total_episodes episodes_of seasons) s'.
Proof.
  unfold count_seasons_episodes, bind, ext. rewrite !Hseasons.
  match goal with
  | |- context [sum_episodes w seasons 0 ?st] =>
      destruct (sum_episodes_total seasons 0 st) as (s' & E)
  end.
  rewrite E. exists s'. reflexivity.
Qed.

End Resolved.

(** X11.  When the show of a season or show entry resolves and its seasons
    and episodes can be listed, the slide has the title, the description
    and the fanart of the show, not of the entry, and the entry's own
    thumbnail as poster; its season count is the number of seasons and its
    episode count the total of the episodes of all seasons. *)
Theorem resolved_show_slide (w : World) (item : LibraryEntry) (show : Show)
    (seasons : list Season) (episodes_of : Season -> list Episode) (s : State) :
  (forall n, plex_fetchItem w n (show_key item) = inr show) ->
  (forall n, show_seasons w n show = inr seasons) ->
  (forall n season, season_episodes w n season = inr (episodes_of season)) ->
  exists s',
    show_entry w item s =
    Ok (show_dict (show_title show) (item_thumbUrl item) (show_artUrl show)
          (show_summary show) (Z.of_nat (List.length seasons))
          (total_episodes episodes_of seasons)) s'.
Proof.
  intros Hfetch Hseasons Hepisodes.
  unfold show_entry, try_except, bind at 1, ext. rewrite Hfetch.
  destruct (count_seasons_episodes_total w show seasons episodes_of Hseasons Hepisodes
              {| calls := S (calls s); log := log s |}) as (s' & E).
  unfold bind. rewrite E. exists s'. reflexivity.
Qed.

Lemma resolved_show_slide_witness :
  exists s',
    show_entry resolving_world (season_entry "Season 1") start =
    Ok (show_dict "The Show" (Some "/thumb/Season 1"%string) (Some "/art/show"%string)
          (Some "A show."%string) 2 7) s'.
Proof.
  apply (resolved_show_slide resolving_world (season_entry "Season 1") the_show
           [1; 2] (fun season => if season =? 1 then [1; 2; 3] else [1; 2; 3; 4]) start);
    intros; reflexivity.
Defined.

Lemma entry_of_rows (item : LibraryEntry) (d : Dict) :
  entry_of item d -> rows_of_entry item d.
Proof.
  unfold entry_of, rows_of_entry.
  destruct (_ || _).
  - intros (t & f & dsc & ns & ne & ->). split; reflexivity.
  - intros ->. split; reflexivity.
Qed.



(** ** display_time_and_info *)

(** X13.  The idle screen looks its two library sections up by the fixed
    names 'Movies' and 'TV Shows': when either lookup raises, as for a
    library that has no section of that name, [display_time_and_info]
    raises with it before it has drawn anything. *)
Theorem idle_screen_needs_sections (w : World) (e : Exc) (s : State) :
  (forall n, plex_section w n "Movies"%string = inl e) \/
  ((forall n, exists section, plex_section w n "Movies"%string = inr section) /\
   (forall n, plex_section w n "TV Shows"%string = inl e)) ->
  exists s', display_time_and_info w s = Raise e s' /\ log s' = log s.
Proof.
  intros H. unfold display_time_and_info, bind at 1, ext at 1.
  destruct (font_size w large_font _) as [text_w text_h].
  unfold bind at 1, ext at 1.
  destruct H as [Hm | [Hm Ht]].
  - rewrite Hm. eexists. split; reflexivity.
  - destruct (Hm (calls {| calls := S (calls s); log := log s |})) as (section & ->).
    unfold bind at 1, ext at 1. rewrite Ht. eexists. split; reflexivity.
Qed.

Lemma idle_screen_needs_sections_witness :
  exists s',
    display_time_and_info films_world start = Raise (LibraryError "NotFound") s' /\
    log s' = log start.
Proof.
  apply (idle_screen_needs_sections films_world (LibraryError "NotFound") start).
  left. intros n. reflexivity.
Defined.

Section IdleCount.

Variable w : World.
Hypothesis Hsections : sections_load w.

(** X14.  The idle screen does not take the list the pass polled: it calls
    [plex.sessions()] again, as its sixth call to the outside, and the
    number it writes after "Currently Playing:" is the length of that
    answer. *)
Theorem idle_screen_counts_again (sessions : list Session) (s : State) :
  plex_sessions w (5 + calls s) = inr sessions ->
  Forall describable sessions ->
  exists drawn s',
    display_time_and_info w s = Ok tt s' /\
    log s' = log s ++ drawn /\
    In (EvBlit (DText font
                  ("Currently Playing: "
                   ++ py_str (VInt (Z.of_nat (List.length sessions)))) white)
          550 400) drawn.
Proof.
  intros Hs Hd. destruct Hsections as [Hsection Hall].
  unfold display_time_and_info, bind at 1, ext at 1.
  destruct (font_size w large_font _) as [text_w text_h].
  unfold bind at 1, ext at 1.
  match goal with |- context [plex_section w ?n "Movies"%string] =>
    destruct (Hsection n "Movies"%string) as (movies_section & ->) end.
  unfold bind at 1, ext at 1.
  match goal with |- context [plex_section w ?n "TV Shows"%string] =>
    destruct (Hsection n "TV Shows"%string) as (tv_section & ->) end.
  unfold bind at 1, ext at 1.
  match goal with |- context [section_all w ?n movies_section] =>
    destruct (Hall n movies_section) as (movies & ->) end.
  unfold bind at 1, ext at 1.
  match goal with |- context [section_all w ?n tv_section] =>
    destruct (Hall n tv_section) as (tv_shows & ->) end.
  unfold bind at 1, get_currently_playing, bind at 1, ext at 1.
  simpl calls. simpl log. change (S (S (S (S (S (calls s)))))) with (5 + calls s)%nat.
  rewrite Hs.
  match goal with |- context [sessions_loop w sessions [] ?st] =>
    destruct (sessions_loop_ok w sessions Hd [] st)
      as (now_playing & s1 & E & L & Hlen & _) end.
  rewrite E. simpl in L. rewrite app_nil_l, Hlen.
  eexists _, _. split; [reflexivity|]. simpl log. rewrite L.
  split; [rewrite <- !app_assoc; reflexivity|].
  simpl. auto 10.
Qed.

End IdleCount.

Lemma idle_screen_counts_again_witness :
  sections_load late_session_world /\
  plex_sessions late_session_world (5 + calls start)
    = inr [episode_session (Some "/art/show"%string) None None] /\
  Forall describable [episode_session (Some "/art/show"%string) None None] /\
  exists drawn s',
    display_time_and_info late_session_world start = Ok tt s' /\
    log s' = log start ++ drawn /\
    In (EvBlit (DText font "Currently Playing: 1" white) 550 400) drawn.
Proof.
  assert (H1 : sections_load late_session_world) by (split; intros; eexists; reflexivity).
  assert (H2 : plex_sessions late_session_world (5 + calls start)
               = inr [episode_session (Some "/art/show"%string) None None])
    by reflexivity.
  assert (H3 : Forall describable [episode_session (Some "/art/show"%string) None None]).
  { constructor; [|constructor]. intros _. split; discriminate. }
  split; [exact H1|]. split; [exact H2|]. split; [exact H3|].
  exact (idle_screen_counts_again late_session_world H1 _ start H2 H3).
Defined.

(** ** The event check *)

Lemma cancels_iff (events : list PgEvent) :
  cancels events = true <-> In QUIT events \/ In (KEYDOWN K_ESCAPE) events.
Proof.
  unfold cancels. rewrite existsb_exists. split.
  - intros ([|key|t] & Hin & H); [now left | | discriminate].
    apply Z.eqb_eq in H. subst key. now right.
  - intros [H|H]; eexists; (split; [exact H | reflexivity]).
Qed.

(** X15.  The event check leaves [running] true exactly when it was true
    and the drained queue holds neither a window close nor an Escape key
    press; other keys and other events change nothing, and nothing in the
    queue sets [running] back to true. *)
Theorem handle_events_running (events : list PgEvent) (running : bool) :
  handle_events events running = true <->
  running = true /\ ~ In QUIT events /\ ~ In (KEYDOWN K_ESCAPE) events.
Proof.
  rewrite handle_events_cancels, andb_true_iff, negb_true_iff.
  pose proof (cancels_iff events) as Hc.
  destruct (cancels events); split.
  - intros [_ H]. discriminate H.
  - intros (_ & Hq & Hk). exfalso. destruct (proj1 Hc eq_refl); contradiction.
  - intros [Hr _]. repeat split; [exact Hr | |]; intros H;
      [assert (false = true) by (apply Hc; now left)
      |assert (false = true) by (apply Hc; now right)]; discriminate.
  - intros (Hr & _). split; [exact Hr | reflexivity].
Qed.

(** ** A pass that shows its slides *)

Lemma returns_ret {A : Type} (a : A) (P : A -> Prop) : P a -> returns (ret a) P.
Proof. intros H s. exists a, s. auto. Qed.

Lemma returns_emit (e : Event) : returns (emit e) (fun _ => True).
Proof. intros s. eexists tt, _. split; [reflexivity | exact I]. Qed.

Lemma returns_ext {A : Type} (f : nat -> Exc + A) (P : A -> Prop) :
  (forall n, exists a, f n = inr a /\ P a) -> returns (ext f) P.
Proof.
  intros H s. destruct (H (calls s)) as (a & E & Ha).
  exists a, (called s). unfold ext. rewrite E. auto.
Qed.

Lemma returns_bind {A B : Type} (m : M A) (f : A -> M B)
    (P1 : A -> Prop) (P : B -> Prop) :
  returns m P1 -> (forall a, P1 a -> returns (f a) P) -> returns (bind m f) P.
Proof.
  intros Hm Hf s. destruct (Hm s) as (a & s1 & E1 & H1).
  destruct (Hf a H1 s1) as (b & s2 & E2 & H2).
  exists b, s2. unfold bind. rewrite E1. auto.
Qed.

Lemma timeline_drawing (l : list Event) : Forall is_drawing l -> timeline l = [].
Proof.
  induction 1 as [|e l He _ IH]; [reflexivity|].
  unfold timeline in *. simpl. unfold is_drawing in He. now rewrite He.
Qed.

Lemma idle_of_timeline (l : list Event) :
  idle_screens l = List.length (filter is_idle (timeline l)).
Proof.
  unfold idle_screens, timeline. f_equal.
  induction l as [|e l IH]; [reflexivity|].
  destruct e as [| | | |[|]| | |]; simpl; now rewrite IH.
Qed.

Lemma no_idle_in_rotation (seconds : Q) (pairs : list (Dict * list PgEvent)) :
  filter is_idle (flat_map (slide_dwell_poll seconds) pairs) = [].
Proof. induction pairs as [|p pairs IH]; [reflexivity | exact IH]. Qed.

Section Images.

Variable w : World.
Hypothesis Himages : images_load w.

Lemma fetch_poster_returns (url : PyVal) : returns (fetch_poster w url) (fun _ => True).
Proof.
  intros s. unfold fetch_poster, bind, ext.
  destruct (Himages (calls s) url) as (response & E & Hdecode). rewrite E.
  destruct (Z.eqb_spec (status_code response) 200) as [H200|_].
  - destruct (Hdecode H200) as (image & bytes & surface & E1 & E2 & E3).
    rewrite E1. simpl. rewrite E2. simpl. rewrite E3. simpl.
    eexists _, _. split; [reflexivity | exact I].
  - eexists _, _. split; [reflexivity | exact I].
Qed.

Lemma blit_lines_returns (lines : list string) :
  forall y, returns (blit_lines lines y) (fun _ => True).
Proof.
  induction lines as [|line rest IH]; intros y; simpl.
  - now apply returns_ret.
  - eapply returns_bind; [apply returns_emit | intros _ _; apply IH].
Qed.

Lemma display_info_returns (d : Dict) :
  slide_ok d -> returns (display_info w d) (fun _ => True).
Proof.
  intros ((fanart_url & Hf) & (poster_url & Hp) & (title & Ht) & Hd).
  unfold display_info, dict_item. rewrite Hf, Hp, Ht.
  eapply returns_bind; [apply returns_emit | intros _ _].
  eapply (returns_bind _ _ (fun _ => True)); [now apply returns_ret | intros url _].
  eapply returns_bind; [apply fetch_poster_returns | intros fanart _].
  eapply returns_bind; [destruct fanart; apply returns_emit | intros _ _].
  eapply returns_bind; [apply returns_emit | intros _ _].
  eapply (returns_bind _ _ (fun _ => True)); [now apply returns_ret | intros url' _].
  eapply returns_bind; [apply fetch_poster_returns | intros poster _].
  eapply (returns_bind _ _ (fun _ => True));
    [destruct poster; [apply returns_emit | now apply returns_ret] | intros _ _].
  eapply (returns_bind _ _ (fun v => v = VStr title)); [now apply returns_ret | intros v ->].
  eapply (returns_bind _ _ (fun _ => True)); [now apply returns_ret | intros title' _].
  eapply returns_bind; [apply returns_emit | intros _ _].
  eapply returns_bind; [apply returns_emit | intros _ _].
  eapply (returns_bind _ _ (fun _ => True)).
  { unfold dict_get_default.
    destruct (dict_get "description" d) as [[|t|z]|] eqn:E.
    - now apply returns_ret.
    - unfold py_or. destruct (truthy (VStr t)); now apply returns_ret.
    - now elim (Hd z).
    - now apply returns_ret. }
  intros lines _.
  eapply returns_bind; [apply blit_lines_returns | intros y _].
  eapply (returns_bind _ _ (fun _ => True)).
  { destruct (is_show_or_season d); [|now apply returns_ret].
    eapply returns_bind; [apply returns_emit | intros _ _].
    eapply returns_bind; [apply returns_emit | intros _ _].
    now apply returns_ret. }
  intros y' _.
  eapply (returns_bind _ _ (fun _ => True)).
  { destruct (dict_has "user" d && dict_has "transcode" d); [|now apply returns_ret].
    eapply returns_bind; [apply returns_emit | intros _ _]. apply returns_emit. }
  intros _ _. apply returns_emit.
Qed.

Lemma display_info_shows (d : Dict) (s : State) :
  slide_ok d ->
  exists s',
    display_info w d s = Ok tt s' /\
    timeline (log s') = timeline (log s) ++ [EvUpdate (SlideScreen d)].
Proof.
  intros Hd. destruct (display_info_returns d Hd s) as ([] & s' & E & _).
  destruct (display_info_frames w d s) as (pre & Hpre & H).
  rewrite E in H. exists s'. split; [exact E|].
  rewrite H, !timeline_app, (timeline_drawing pre); [reflexivity|].
  eapply Forall_impl; [exact draws_on_screen_drawing | exact Hpre].
Qed.

End Images.

Section Showing.

Variable w : World.
Variable sessions : list Session.
Variable entries : list LibraryEntry.
Hypothesis Hshowing : showing w sessions entries.

Let Hsessions := proj1 Hshowing.
Let Hdescribable := proj1 (proj2 Hshowing).
Let Hrecent := proj1 (proj2 (proj2 Hshowing)).
Let Himages := proj1 (proj2 (proj2 (proj2 Hshowing))).
Let Hsections := proj1 (proj2 (proj2 (proj2 (proj2 Hshowing)))).
Let Hsleep := proj2 (proj2 (proj2 (proj2 (proj2 Hshowing)))).

Lemma session_entry_slide (session : Session) (s : State) :
  describable session ->
  exists entry s',
    session_entry w session s = Ok entry s' /\
    (viewer_and_status session entry /\ slide_ok entry).
Proof.
  intros Hd.
  destruct (session_entry_viewer w session s Hd) as (entry & s1 & E & Hv).
  destruct (session_entry_ok w session s Hd) as (entry' & s2 & E' & _ & Hok).
  rewrite E in E'. injection E' as <- <-. eauto.
Qed.

Lemma get_currently_playing_runs (s : State) :
  exists now_playing s',
    get_currently_playing w s = Ok now_playing s' /\ log s' = log s /\
    Forall slide_ok now_playing /\ Forall2 viewer_and_status sessions now_playing.
Proof.
  destruct (get_currently_playing_rel w
              (fun session d => viewer_and_status session d /\ slide_ok d)
              sessions s session_entry_slide (Hsessions (calls s)) Hdescribable)
    as (now_playing & s' & E & H).
  exists now_playing, s'. split; [exact E|].
  pose proof (get_currently_playing_silent w s) as L. rewrite E in L.
  split; [exact L|]. clear -H.
  induction H as [|x d l l' [Hv Hok] _ [IH1 IH2]]; split; constructor; auto.
Qed.

Lemma display_time_and_info_returns :
  returns (display_time_and_info w) (fun _ => True).
Proof.
  destruct Hsections as [Hsection Hall].
  unfold display_time_and_info.
  eapply (returns_bind _ _ (fun _ => True));
    [apply returns_ext; intros n; eauto | intros now _].
  destruct (font_size w large_font (strftime w now (TIME_FORMAT w))) as [text_w text_h].
  eapply (returns_bind _ _ (fun _ => True)).
  { apply returns_ext. intros n. destruct (Hsection n "Movies"%string) as (x & ->). eauto. }
  intros movies_section _.
  eapply (returns_bind _ _ (fun _ => True)).
  { apply returns_ext. intros n. destruct (Hsection n "TV Shows"%string) as (x & ->). eauto. }
  intros tv_shows_section _.
  eapply (returns_bind _ _ (fun _ => True)).
  { apply returns_ext. intros n. destruct (Hall n movies_section) as (x & ->). eauto. }
  intros movies _.
  eapply (returns_bind _ _ (fun _ => True)).
  { apply returns_ext. intros n. destruct (Hall n tv_shows_section) as (x & ->). eauto. }
  intros tv_shows _.
  eapply (returns_bind _ _ (fun _ => True)).
  { intros s. destruct (get_currently_playing_runs s) as (np & s' & E & _). eauto. }
  intros now_playing _.
  eapply returns_bind; [apply returns_emit | intros _ _].
  eapply returns_bind; [apply returns_emit | intros _ _].
  eapply returns_bind; [apply returns_emit | intros _ _].
  eapply returns_bind; [apply returns_emit | intros _ _].
  eapply returns_bind; [apply returns_emit | intros _ _].
  apply returns_emit.
Qed.

Lemma display_time_and_info_shows (s : State) :
  exists s',
    display_time_and_info w s = Ok tt s' /\
    timeline (log s') = timeline (log s) ++ [EvUpdate IdleScreen].
Proof.
  destruct (display_time_and_info_returns s) as ([] & s' & E & _).
  destruct (display_time_and_info_frames w s) as (pre & Hpre & H).
  rewrite E in H. exists s'. split; [exact E|].
  now rewrite H, !timeline_app, (timeline_drawing pre Hpre).
Qed.

Lemma time_sleep_runs (s : State) :
  time_sleep (DISPLAY_TIME w) s
  = Ok tt {| calls := calls s; log := log s ++ [EvSleep (DISPLAY_TIME w)] |}.
Proof. unfold time_sleep. rewrite Hsleep. reflexivity. Qed.

(** The rotation, with the event queues it drained. *)
Lemma rotate_runs (media : list Dict) :
  Forall slide_ok media ->
  forall running s,
  exists polls s',
    rotate w media running s
      = Ok (running && forallb (fun p => negb (cancels p)) polls) s' /\
    List.length polls = List.length media /\
    Forall (fun p => exists n, p = pygame_event_get w n) polls /\
    timeline (log s') =
      timeline (log s)
      ++ flat_map (slide_dwell_poll (DISPLAY_TIME w)) (combine media polls).
Proof.
  induction 1 as [|d rest Hd _ IH]; intros running s.
  - exists [], s. simpl. rewrite andb_true_r, app_nil_r. repeat split. constructor.
  - destruct (display_info_shows w Himages d s Hd) as (s1 & E1 & T1).
    simpl rotate. unfold bind at 1. rewrite E1.
    unfold bind at 1. rewrite time_sleep_runs.
    unfold bind at 1, ext at 1. unfold bind at 1, emit at 1.
    match goal with |- context [rotate w rest ?r ?st] =>
      destruct (IH r st) as (polls & s' & E & Hlen & Hfrom & T) end.
    exists (pygame_event_get w (calls s1) :: polls), s'.
    simpl calls in *. simpl log in *. rewrite E.
    split; [rewrite handle_events_cancels; simpl forallb; now rewrite andb_assoc|].
    split; [simpl; now rewrite Hlen|].
    split; [constructor; eauto|].
    rewrite T, !timeline_app, T1. simpl. now rewrite <- !app_assoc.
Qed.

(** One pass of [while running], whether something is being played or
    not: the window is raised, the list to show is chosen, each of its
    slides is shown, held and followed by an event check, and the idle
    screen closes the pass. *)
Lemma cycle_media (s : State) :
  exists s1 slides s2 polls s',
    bring_window_to_front w s = Ok tt s1 /\
    media_to_display w s1 = Ok slides s2 /\
    (sessions = [] ->
     Forall2 entry_of
       (filter supported (py_slice_to (NUM_RECENT_ITEMS w) entries)) slides) /\
    (sessions <> [] -> Forall2 viewer_and_status sessions slides) /\
    cycle w s = Ok (forallb (fun p => negb (cancels p)) polls) s' /\
    List.length polls = List.length slides /\
    Forall (fun p => exists n, p = pygame_event_get w n) polls /\
    timeline (log s') =
      timeline (log s)
      ++ flat_map (slide_dwell_poll (DISPLAY_TIME w)) (combine slides polls)
      ++ [EvUpdate IdleScreen; EvSleep (DISPLAY_TIME w)].
Proof.
  destruct (bring_window_to_front_quiet w s) as ([] & s1 & evs & E1 & T1 & [-> _]).
  rewrite app_nil_r in T1.
  destruct (get_currently_playing_runs s1) as (np & s2 & E2 & L2 & Hok & Hrel).
  assert (Hmedia : exists slides s3,
            match np with
            | _ :: _ => ret np
            | [] => get_last_added w
            end s2 = Ok slides s3 /\ log s3 = log s2 /\ Forall slide_ok slides /\
            (sessions = [] ->
             Forall2 entry_of
               (filter supported (py_slice_to (NUM_RECENT_ITEMS w) entries)) slides) /\
            (sessions <> [] -> Forall2 viewer_and_status sessions slides)).
  { destruct np as [|d np'].
    - assert (Hs : sessions = []) by (inversion Hrel; reflexivity).
      destruct (get_last_added_total w entries s2 (Hrecent Hs (calls s2)))
        as (slides & s3 & E3 & L3 & H3).
      exists slides, s3. split; [exact E3|]. split; [exact L3|]. split.
      { clear -H3. induction H3; constructor; eauto using entry_of_slide_ok. }
      split; [intros _; exact H3 | intros Hne; contradiction].
    - assert (Hs : sessions <> []) by (intros Hs; rewrite Hs in Hrel; inversion Hrel).
      exists (d :: np'), s2. split; [reflexivity|]. split; [reflexivity|].
      split; [exact Hok|].
      split; [intros Hs'; contradiction | intros _; exact Hrel]. }
  destruct Hmedia as (slides & s3 & E3 & L3 & Hslides & Hlib & Hplay).
  destruct (rotate_runs slides Hslides true s3) as (polls & s4 & E4 & Hlen & Hfrom & T4).
  destruct (display_time_and_info_shows s4) as (s5 & E5 & T5).
  exists s1, slides, s3, polls,
    {| calls := calls s5; log := log s5 ++ [EvSleep (DISPLAY_TIME w)] |}.
  split; [exact E1|].
  split; [unfold media_to_display, bind; rewrite E2; exact E3|].
  split; [exact Hlib|]. split; [exact Hplay|].
  split.
  { unfold cycle, bind. rewrite E1, E2, E3, E4, E5, time_sleep_runs. reflexivity. }
  split; [exact Hlen|]. split; [exact Hfrom|].
  simpl log. rewrite timeline_app, T5, T4, L3, L2, T1. simpl.
  now rewrite <- !app_assoc.
Qed.

Lemma cycle_runs (s : State) :
  exists slides polls s',
    cycle w s = Ok (forallb (fun p => negb (cancels p)) polls) s' /\
    List.length polls = List.length slides /\
    Forall (fun p => exists n, p = pygame_event_get w n) polls /\
    (sessions = [] ->
     Forall2 entry_of
       (filter supported (py_slice_to (NUM_RECENT_ITEMS w) entries)) slides) /\
    (sessions <> [] -> Forall2 viewer_and_status sessions slides) /\
    timeline (log s') =
      timeline (log s)
      ++ flat_map (slide_dwell_poll (DISPLAY_TIME w)) (combine slides polls)
      ++ [EvUpdate IdleScreen; EvSleep (DISPLAY_TIME w)].
Proof.
  destruct (cycle_media s)
    as (s1 & slides & s2 & polls & s' & _ & _ & Hlib & Hplay & E & Hlen & Hfrom & T).
  exists slides, polls, s'.
  split; [exact E|]. split; [exact Hlen|]. split; [exact Hfrom|].
  split; [exact Hlib|]. split; [exact Hplay | exact T].
Qed.

End Showing.

Lemma showing_world_of (sessions : list Session) (recent : Exc + list LibraryEntry)
    (entries : list LibraryEntry) (events : nat -> list PgEvent) :
  Forall describable sessions ->
  (sessions = [] -> recent = inr entries) ->
  showing (world_of (inr sessions) recent not_found events) sessions entries.
Proof.
  intros Hd Hr. repeat split; simpl; eauto.
  intros n url. eexists. split; [reflexivity|]. simpl. discriminate.
Qed.

Lemma forallb_none_cancels (polls : list (list PgEvent)) :
  existsb cancels polls = false ->
  forallb (fun p => negb (cancels p)) polls = true.
Proof.
  induction polls as [|p polls IH]; simpl; [reflexivity|].
  destruct (cancels p); simpl; [discriminate | exact IH].
Qed.

(** C3, as the code has it.  The dwell is one uninterrupted sleep, and a
    cancellation is found only by the event check that follows the dwell
    of a slide.  Finding it only clears the flag [running].  In a pass
    where nothing fails, the slides are those of [media_to_display], the
    list chosen at the start of the pass: one for each session, in order,
    when something is being played, and otherwise one for each supported
    entry among the first [NUM_RECENT_ITEMS] recently added.  Every one of
    them is shown for the full dwell and followed by one reading of the
    event queue, and so is the idle screen shown for the full dwell,
    whatever the event checks find.  When one of the checks finds a
    cancellation the loop is left at the end of that pass, and then
    [pygame.quit()] is called; when none does, the loop goes on with the
    next pass. *)
Theorem cancellation_waits_for_pass_end (w : World) (sessions : list Session)
    (entries : list LibraryEntry) (s : State) :
  showing w sessions entries ->
  exists s1 slides s2 polls s',
    bring_window_to_front w s = Ok tt s1 /\
    media_to_display w s1 = Ok slides s2 /\
    (sessions = [] ->
     Forall2 entry_of
       (filter supported (py_slice_to (NUM_RECENT_ITEMS w) entries)) slides) /\
    (sessions <> [] -> Forall2 viewer_and_status sessions slides) /\
    cycle w s = Ok (forallb (fun p => negb (cancels p)) polls) s' /\
    List.length polls = List.length slides /\
    Forall (fun p => exists n, p = pygame_event_get w n) polls /\
    timeline (log s') =
      timeline (log s)
      ++ flat_map (slide_dwell_poll (DISPLAY_TIME w)) (combine slides polls)
      ++ [EvUpdate IdleScreen; EvSleep (DISPLAY_TIME w)] /\
    (existsb cancels polls = true ->
     forall fuel,
       main_loop w (S fuel) s
         = Ok true {| calls := calls s'; log := log s' ++ [EvQuit] |}) /\
    (existsb cancels polls = false ->
     forall fuel, main_loop w (S fuel) s = main_loop w fuel s').
Proof.
  intros Hshowing.
  destruct (cycle_media w sessions entries Hshowing s)
    as (s1 & slides & s2 & polls & s' & E1 & Em & Hlib & Hplay & E & Hlen & Hfrom & T).
  exists s1, slides, s2, polls, s'.
  split; [exact E1|]. split; [exact Em|]. split; [exact Hlib|]. split; [exact Hplay|].
  split; [exact E|]. split; [exact Hlen|]. split; [exact Hfrom|]. split; [exact T|].
  split.
  - intros Hcancel fuel. unfold main_loop. simpl. unfold bind. rewrite E.
    now rewrite (forallb_not_cancels polls Hcancel).
  - intros Hnone fuel. unfold main_loop. simpl. unfold bind. rewrite E.
    now rewrite (forallb_none_cancels polls Hnone).
Qed.

Lemma cancellation_waits_for_pass_end_witness :
  showing closing_world [] three_movies /\
  exists s1 slides s2 polls s',
    bring_window_to_front closing_world start = Ok tt s1 /\
    media_to_display closing_world s1 = Ok slides s2 /\
    (@nil Session = [] ->
     Forall2 entry_of
       (filter supported
          (py_slice_to (NUM_RECENT_ITEMS closing_world) three_movies)) slides) /\
    (@nil Session <> [] -> Forall2 viewer_and_status [] slides) /\
    cycle closing_world start = Ok (forallb (fun p => negb (cancels p)) polls) s' /\
    List.length polls = List.length slides /\
    Forall (fun p => exists n, p = pygame_event_get closing_world n) polls /\
    timeline (log s') =
      timeline (log start)
      ++ flat_map (slide_dwell_poll (DISPLAY_TIME closing_world)) (combine slides polls)
      ++ [EvUpdate IdleScreen; EvSleep (DISPLAY_TIME closing_world)] /\
    (existsb cancels polls = true ->
     forall fuel,
       main_loop closing_world (S fuel) start
         = Ok true {| calls := calls s'; log := log s' ++ [EvQuit] |}) /\
    (existsb cancels polls = false ->
     forall fuel, main_loop closing_world (S fuel) start = main_loop closing_world fuel s').
Proof.
  assert (H : showing closing_world [] three_movies)
    by (apply showing_world_of; [constructor | reflexivity]).
  split; [exact H|].
  exact (cancellation_waits_for_pass_end closing_world [] three_movies start H).
Defined.

(** X16.  While something is being played the recently added entries are
    not asked for: in a pass where the sessions, the images and the idle
    screen load, the slides are those of the sessions, in order, each held
    for the dwell time and followed by the idle screen, whatever
    [recentlyAdded()] would answer, an error included. *)
Theorem playing_pass_ignores_recent (w : World) (sessions : list Session)
    (entries : list LibraryEntry) (s : State) :
  showing w sessions entries ->
  sessions <> [] ->
  exists slides running s',
    cycle w s = Ok running s' /\
    Forall2 viewer_and_status sessions slides /\
    screens_and_dwells (log s') =
      screens_and_dwells (log s)
      ++ flat_map (slide_dwell (DISPLAY_TIME w)) slides
      ++ [EvUpdate IdleScreen; EvSleep (DISPLAY_TIME w)].
Proof.
  intros Hshowing Hne.
  destruct (cycle_runs w sessions entries Hshowing s)
    as (slides & polls & s' & E & Hlen & _ & _ & Hplay & T).
  eexists slides, _, s'. split; [exact E|]. split; [exact (Hplay Hne)|].
  rewrite (screens_of_timeline (log s')), (screens_of_timeline (log s)), T.
  rewrite !filter_app. now rewrite (screens_of_rotation _ _ _ Hlen).
Qed.

Lemma playing_pass_ignores_recent_witness :
  showing playing_only_world [movie_session] [] /\
  [movie_session] <> [] /\
  plex_recentlyAdded playing_only_world 0 = inl (LibraryError "ConnectionError") /\
  exists slides running s',
    cycle playing_only_world start = Ok running s' /\
    Forall2 viewer_and_status [movie_session] slides /\
    screens_and_dwells (log s') =
      screens_and_dwells (log start)
      ++ flat_map (slide_dwell (DISPLAY_TIME playing_only_world)) slides
      ++ [EvUpdate IdleScreen; EvSleep (DISPLAY_TIME playing_only_world)].
Proof.
  assert (H1 : showing playing_only_world [movie_session] []).
  { apply showing_world_of; [|discriminate].
    constructor; [intros H; discriminate H | constructor]. }
  assert (H2 : [movie_session] <> []) by discriminate.
  split; [exact H1|]. split; [exact H2|]. split; [reflexivity|].
  exact (playing_pass_ignores_recent playing_only_world _ [] start H1 H2).
Defined.

(** Passes that all end with [running] still true. *)
Lemma main_loop_goes_on (w : World) :
  (forall s, exists s',
     cycle w s = Ok true s' /\ idle_screens (log s') = S (idle_screens (log s))) ->
  forall fuel s, exists s',
    main_loop w fuel s = Ok false s' /\
    idle_screens (log s') = (idle_screens (log s) + fuel)%nat.
Proof.
  intros Hcycle fuel.
  assert (Hwhile : forall s, exists s',
            while_running w fuel s = Ok false s' /\
            idle_screens (log s') = (idle_screens (log s) + fuel)%nat).
  { induction fuel as [|fuel IH]; intros s.
    - exists s. split; [reflexivity | lia].
    - destruct (Hcycle s) as (s1 & E1 & I1).
      destruct (IH s1) as (s2 & E2 & I2).
      exists s2. simpl. unfold bind. rewrite E1, E2. split; [reflexivity | lia]. }
  intros s. destruct (Hwhile s) as (s' & E & I).
  exists s'. unfold main_loop, bind. rewrite E. auto.
Qed.

Lemma idle_after_pass (seconds : Q) (l l' : list Event)
    (pairs : list (Dict * list PgEvent)) :
  timeline l' =
    timeline l ++ flat_map (slide_dwell_poll seconds) pairs
    ++ [EvUpdate IdleScreen; EvSleep seconds] ->
  idle_screens l' = S (idle_screens l).
Proof.
  intros T. rewrite !idle_of_timeline, T, !filter_app, no_idle_in_rotation.
  simpl. rewrite length_app. simpl. lia.
Qed.

(** X17.  The loop has no other way out than a cancellation: in a world
    where every pass shows its slides without a failure and no event check
    ever finds a window close or an Escape, [main_loop] is still running
    after any number of passes, one idle screen a pass, and has not closed
    the window. *)
Theorem loop_runs_until_cancelled (w : World) (sessions : list Session)
    (entries : list LibraryEntry) (fuel : nat) (s : State) :
  showing w sessions entries ->
  (forall n, cancels (pygame_event_get w n) = false) ->
  exists s',
    main_loop w fuel s = Ok false s' /\
    idle_screens (log s') = (idle_screens (log s) + fuel)%nat.
Proof.
  intros Hshowing Hquiet. apply main_loop_goes_on. clear s. intros s.
  destruct (cycle_runs w sessions entries Hshowing s)
    as (slides & polls & s' & E & _ & Hfrom & _ & _ & T).
  exists s'. split; [|exact (idle_after_pass _ _ _ _ T)].
  rewrite E. f_equal. clear -Hfrom Hquiet.
  induction Hfrom as [|p polls (n & ->) _ IH]; [reflexivity|].
  simpl. now rewrite Hquiet, IH.
Qed.

Lemma loop_runs_until_cancelled_witness :
  showing calm_world [] three_movies /\
  (forall n, cancels (pygame_event_get calm_world n) = false) /\
  exists s',
    main_loop calm_world 3 start = Ok false s' /\
    idle_screens (log s') = (idle_screens (log start) + 3)%nat.
Proof.
  assert (H1 : showing calm_world [] three_movies)
    by (apply showing_world_of; [constructor | reflexivity]).
  assert (H2 : forall n, cancels (pygame_event_get calm_world n) = false)
    by (intros n; reflexivity).
  split; [exact H1|]. split; [exact H2|].
  exact (loop_runs_until_cancelled calm_world [] three_movies 3 start H1 H2).
Defined.

(** X18.  The event queue is only drained after a slide.  When nothing is
    being played and none of the first [NUM_RECENT_ITEMS] recently added
    entries is a movie, a show or a season, a pass has no slide and makes
    no event check, so no window close and no Escape is ever noticed:
    [main_loop] is still running after any number of passes, whatever the
    event queue holds. *)
Theorem empty_pass_cannot_be_cancelled (w : World) (entries : list LibraryEntry)
    (fuel : nat) (s : State) :
  showing w [] entries ->
  filter supported (py_slice_to (NUM_RECENT_ITEMS w) entries) = [] ->
  exists s',
    main_loop w fuel s = Ok false s' /\
    idle_screens (log s') = (idle_screens (log s) + fuel)%nat.
Proof.
  intros Hshowing Hnone. apply main_loop_goes_on. clear s. intros s.
  destruct (cycle_runs w [] entries Hshowing s)
    as (slides & polls & s' & E & Hlen & _ & Hlib & _ & T).
  specialize (Hlib eq_refl). rewrite Hnone in Hlib. inversion Hlib; subst.
  destruct polls; [|discriminate Hlen].
  exists s'. split; [exact E | exact (idle_after_pass _ _ _ _ T)].
Qed.

Lemma empty_pass_cannot_be_cancelled_witness :
  showing empty_closing_world [] [] /\
  filter supported (py_slice_to (NUM_RECENT_ITEMS empty_closing_world) []) = [] /\
  pygame_event_get empty_closing_world 0 = [QUIT] /\
  exists s',
    main_loop empty_closing_world 4 start = Ok false s' /\
    idle_screens (log s') = (idle_screens (log start) + 4)%nat.
Proof.
  assert (H1 : showing empty_closing_world [] [])
    by (apply showing_world_of; [constructor | reflexivity]).
  assert (H2 : filter supported
                 (py_slice_to (NUM_RECENT_ITEMS empty_closing_world) []) = [])
    by reflexivity.
  split; [exact H1|]. split; [exact H2|]. split; [reflexivity|].
  exact (empty_pass_cannot_be_cancelled empty_closing_world [] 4 start H1 H2).
Defined.

(** ** pygame.quit() *)

Lemma logs_raise {A : Type} (e : Exc) (P : A -> Prop) (Q : Event -> Prop) :
  logs (@raise A e) P Q.
Proof.
  intros s. exists []. simpl. rewrite app_nil_r. repeat split; auto. discriminate.
Qed.

Section Quit.

Variable w : World.

Lemma time_sleep_logs (seconds : Q) : logs (time_sleep seconds) (fun _ => True) not_quit.
Proof.
  unfold time_sleep. destruct (Qle_bool 0 seconds);
    [apply logs_emit; discriminate | apply logs_raise].
Qed.

Lemma bring_window_to_front_logs :
  logs (bring_window_to_front w) (fun _ => True) not_quit.
Proof.
  unfold bring_window_to_front.
  eapply logs_bind; [apply logs_silent, silent_ext | intros windows _].
  destruct windows as [|win rest]; [now apply logs_ret|].
  eapply (logs_bind _ _ (fun _ => True)).
  { destruct (isMinimized win); [apply logs_emit; discriminate | now apply logs_ret]. }
  intros _ _.
  eapply logs_bind; [apply logs_silent, silent_ext | intros hwnd _].
  destruct (hwnd =? 0); [now apply logs_ret | apply logs_emit; discriminate].
Qed.

Lemma display_info_logs (d : Dict) : logs (display_info w d) (fun _ => True) not_quit.
Proof.
  apply (frames_logs _ _ _ _ (display_info_frames w d)); [|discriminate].
  intros e He Hq. subst e. exact He.
Qed.

Lemma display_time_and_info_logs :
  logs (display_time_and_info w) (fun _ => True) not_quit.
Proof.
  apply (frames_logs _ _ _ _ (display_time_and_info_frames w)); [|discriminate].
  intros e He Hq. subst e. discriminate He.
Qed.

Lemma rotate_logs (media : list Dict) :
  forall running, logs (rotate w media running) (fun _ => True) not_quit.
Proof.
  induction media as [|d rest IH]; intros running; simpl.
  - now apply logs_ret.
  - eapply logs_bind; [apply display_info_logs | intros _ _].
    eapply logs_bind; [apply time_sleep_logs | intros _ _].
    eapply logs_bind; [apply logs_silent, silent_ext | intros events _].
    eapply logs_bind; [apply logs_emit; discriminate | intros _ _].
    apply IH.
Qed.

Lemma cycle_logs : logs (cycle w) (fun _ => True) not_quit.
Proof.
  unfold cycle.
  eapply logs_bind; [apply bring_window_to_front_logs | intros _ _].
  eapply logs_bind;
    [apply logs_silent, get_currently_playing_silent | intros now_playing _].
  eapply (logs_bind _ _ (fun _ => True)).
  { destruct now_playing; [apply logs_silent, get_last_added_silent | now apply logs_ret]. }
  intros media _.
  eapply logs_bind; [apply rotate_logs | intros running _].
  eapply logs_bind; [apply display_time_and_info_logs | intros _ _].
  eapply logs_bind; [apply time_sleep_logs | intros _ _].
  now apply logs_ret.
Qed.

Lemma while_running_logs (fuel : nat) :
  logs (while_running w fuel) (fun _ => True) not_quit.
Proof.
  induction fuel as [|fuel IH]; simpl.
  - now apply logs_ret.
  - eapply logs_bind; [apply cycle_logs | intros running _].
    destruct running; [exact IH | now apply logs_ret].
Qed.

End Quit.

(** X19.  [pygame.quit()] is called at most once, as the very last action
    and only when the loop was left because [running] was cleared: an
    exception that escapes [main_loop] leaves the window without it. *)
Theorem quit_only_after_loop (w : World) (fuel : nat) (s : State) :
  exists evs,
    Forall not_quit evs /\
    match main_loop w fuel s with
    | Ok true s' => log s' = log s ++ evs ++ [EvQuit]
    | Ok false s' => log s' = log s ++ evs
    | Raise _ s' => log s' = log s ++ evs
    end.
Proof.
  destruct (while_running_logs w fuel s) as (evs & L & Hq & _).
  exists evs. split; [exact Hq|].
  unfold main_loop, bind.
  destruct (while_running w fuel s) as [[|] s1|e s1]; simpl in *.
  - now rewrite L, app_assoc.
  - exact L.
  - exact L.
Qed.

(** ** The description rows of display_info *)

Lemma bind_ok_inv {A B : Type} (m : M A) (f : A -> M B) (s s' : State) (b : B) :
  bind m f s = Ok b s' -> exists a s1, m s = Ok a s1 /\ f a s1 = Ok b s'.
Proof.
  unfold bind. destruct (m s) as [a s1|e s1]; [eauto | discriminate].
Qed.

Lemma blit_lines_rows (lines : list string) :
  forall y s y' s',
  blit_lines lines y s = Ok y' s' ->
  exists evs,
    log s' = log s ++ evs /\
    forall i line,
      nth_error lines i = Some line ->
      In (EvBlit (DText font line white) 300 (y + 30 * Z.of_nat i)) evs.
Proof.
  induction lines as [|l rest IH]; intros y s y' s' E.
  - injection E as _ <-. exists []. rewrite app_nil_r. split; [reflexivity|].
    intros [|i] line H; discriminate H.
  - simpl in E. apply bind_ok_inv in E as ([] & s1 & E1 & E).
    injection E1 as <-.
    destruct (IH _ _ _ _ E) as (evs & L & Hrows).
    exists (EvBlit (DText font l white) 300 y :: evs). simpl in L.
    split; [now rewrite L, <- app_assoc|].
    intros [|i] line H.
    + injection H as <-. left. f_equal. lia.
    + right. replace (y + 30 * Z.of_nat (S i)) with (y + 30 + 30 * Z.of_nat i) by lia.
      now apply Hrows.
Qed.

Lemma wrap_description_text (w : World) (d : Dict) (s s' : State) (lines : list string) :
  wrap_description w
    (py_or (dict_get_default "description" (VStr "No description available") d)
           (VStr "No description available")) s = Ok lines s' ->
  lines = wrap_text (Some (description_text d)) (fun x => fst (font_size w font x)) 500 /\
  s' = s.
Proof.
  unfold dict_get_default, description_text.
  destruct (dict_get "description" d) as [[|t|z]|]; simpl.
  - intros E. injection E as <- <-. auto.
  - unfold py_or. simpl. destruct (String.eqb t ""); simpl;
      intros E; injection E as <- <-; auto.
  - unfold py_or. simpl. destruct (z =? 0) eqn:Ez; simpl.
    + intros E. injection E as <- <-. auto.
    + rewrite Ez. discriminate.
  - intros E. injection E as <- <-. auto.
Qed.

(** X20.  When [display_info] returns, it has drawn the first five lines
    of the wrapped description in the body font at x = 300, line [i] at
    y = 140 + 30 i; the text wrapped is the description of the dictionary,
    or "No description available" when the description is missing, [None]
    or empty. *)
Theorem description_rows (w : World) (d : Dict) (s s' : State) (i : nat)
    (line : string) :
  display_info w d s = Ok tt s' ->
  nth_error (wrap_text (Some (description_text d))
               (fun x => fst (font_size w font x)) 500) i = Some line ->
  (i < 5)%nat ->
  In (EvBlit (DText font line white) 300 (140 + 30 * Z.of_nat i)) (log s').
Proof.
  intros E Hline Hi. unfold display_info in E.
  do 12 (apply bind_ok_inv in E as (? & ? & _ & E)).
  apply bind_ok_inv in E as (lines & s13 & Ewrap & E).
  apply bind_ok_inv in E as (y & s14 & Eblit & E).
  apply bind_ok_inv in E as (y' & s15 & Eshow & E).
  apply bind_ok_inv in E as ([] & s16 & Euser & E).
  apply wrap_description_text in Ewrap as [-> _].
  destruct (blit_lines_rows _ _ _ _ _ Eblit) as (evs & L & Hrows).
  assert (Hin : In (EvBlit (DText font line white) 300 (140 + 30 * Z.of_nat i)) (log s14)).
  { rewrite L. apply in_or_app. right. apply Hrows.
    rewrite nth_error_firstn.
    destruct (Nat.ltb_spec i 5) as [_|Hge]; [exact Hline | lia]. }
  assert (H15 : exists evs, log s15 = log s14 ++ evs).
  { destruct (is_show_or_season d); injection Eshow as _ <-; simpl;
      [rewrite <- app_assoc|]; eauto. exists []. now rewrite app_nil_r. }
  assert (H16 : exists evs, log s16 = log s15 ++ evs).
  { destruct (dict_has "user" d && dict_has "transcode" d); injection Euser as <-; simpl;
      [rewrite <- app_assoc|]; eauto. exists []. now rewrite app_nil_r. }
  destruct H15 as (e15 & L15). destruct H16 as (e16 & L16).
  injection E as <-. simpl. rewrite L16, L15.
  apply in_or_app. left. apply in_or_app. left. apply in_or_app. left. exact Hin.
Qed.

Lemma description_rows_witness :
  exists s',
    display_info calm_world bare_movie_slide start = Ok tt s' /\
    nth_error (wrap_text (Some (description_text bare_movie_slide))
                 (fun x => fst (font_size calm_world font x)) 500) 0
      = Some "No description available "%string /\
    (0 < 5)%nat /\
    In (EvBlit (DText font "No description available " white) 300
          (140 + 30 * Z.of_nat 0)) (log s').
Proof.
  pose (s' := outcome_state (display_info calm_world bare_movie_slide start)).
  assert (H1 : display_info calm_world bare_movie_slide start = Ok tt s')
    by (vm_compute; reflexivity).
  assert (H2 : nth_error (wrap_text (Some (description_text bare_movie_slide))
                            (fun x => fst (font_size calm_world font x)) 500) 0
               = Some "No description available "%string) by reflexivity.
  assert (H3 : (0 < 5)%nat) by lia.
  exists s'. split; [exact H1|]. split; [exact H2|]. split; [exact H3|].
  exact (description_rows calm_world bare_movie_slide start s' 0 _ H1 H2 H3).
Defined.

Lemma display_info_needs_keys_witness :
  exists s',
    display_info calm_world bare_movie_slide start = Ok tt s' /\
    (exists v, dict_get "fanart_url" bare_movie_slide = Some v) /\
    (exists v, dict_get "poster_url" bare_movie_slide = Some v) /\
    (dict_get "title" bare_movie_slide = Some VNone \/
     exists t, dict_get "title" bare_movie_slide = Some (VStr t)).
Proof.
  pose (s' := outcome_state (display_info calm_world bare_movie_slide start)).
  assert (H : display_info calm_world bare_movie_slide start = Ok tt s')
    by (vm_compute; reflexivity).
  exists s'. split; [exact H|].
  exact (display_info_needs_keys calm_world bare_movie_slide start s' tt H).
Defined.

(** A title that is [None] is drawn as the empty text, shadow first. *)
Example untitled_slide_is_shown :
  exists s',
    display_info calm_world untitled_slide start = Ok tt s' /\
    In (EvBlit (DText title_font "" black) 302 92) (log s') /\
    In (EvBlit (DText title_font "" white) 300 90) (log s').
Proof.
  eexists. split; [vm_compute; reflexivity|]. simpl. tauto.
Qed.

(** ** Images that fail, images that are missing *)

Lemma display_info_request_fails (w : World) (d : Dict) (e : Exc) (s : State) :
  (exists v, dict_get "fanart_url" d = Some v) ->
  (forall n url, requests_get w n url (PLEX_TOKEN w) = inl e) ->
  display_info w d s
  = Raise e {| calls := S (calls s); log := log s ++ [EvFill black] |}.
Proof.
  intros (v & Hf) Hget.
  unfold display_info, bind at 1, emit at 1, bind at 1, dict_item. rewrite Hf.
  unfold ret at 1, bind at 1, fetch_poster, bind at 1, ext at 1. simpl calls.
  now rewrite Hget.
Qed.

(** X21.  A failing image request is not confined to its slide.  When
    nothing is being played, the recently added entries give at least one
    slide and the image requests raise, the pass raises at the fanart of
    the first slide: no slide has been presented, no idle screen follows,
    and the exception ends [main_loop]. *)
Theorem image_failure_stops_loop (w : World) (entries : list LibraryEntry)
    (e : Exc) (s : State) :
  (forall n, plex_sessions w n = inr []) ->
  (forall n, plex_recentlyAdded w n = inr entries) ->
  (forall n url, requests_get w n url (PLEX_TOKEN w) = inl e) ->
  filter supported (py_slice_to (NUM_RECENT_ITEMS w) entries) <> [] ->
  exists s',
    cycle w s = Raise e s' /\
    timeline (log s') = timeline (log s) /\
    forall fuel, main_loop w (S fuel) s = Raise e s'.
Proof.
  intros Hs Hr Hget Hsome.
  destruct (bring_window_to_front_quiet w s) as (u & s1 & evs & E1 & T1 & [-> _]).
  rewrite app_nil_r in T1.
  destruct (get_last_added_total w entries (called s1) (Hr _))
    as (slides & s3 & E3 & L3 & H3).
  destruct slides as [|d rest]; [inversion H3 as [Hnil|]; now rewrite <- Hnil in Hsome|].
  assert (Hd : slide_ok d).
  { inversion H3; subst. eauto using entry_of_slide_ok. }
  assert (Hcycle : cycle w s
                   = Raise e {| calls := S (calls s3); log := log s3 ++ [EvFill black] |}).
  { unfold cycle, bind at 1. rewrite E1.
    unfold bind at 1, get_currently_playing, bind at 1, ext at 1. rewrite Hs.
    simpl sessions_loop. unfold ret at 1.
    fold (called s1). unfold bind at 1. rewrite E3.
    unfold bind at 1. simpl rotate. unfold bind at 1.
    now rewrite (display_info_request_fails w d e s3 (proj1 Hd) Hget). }
  eexists. split; [exact Hcycle|]. split.
  - simpl log. rewrite timeline_app, L3. simpl. now rewrite app_nil_r.
  - intros fuel. unfold main_loop, bind. simpl. unfold bind. now rewrite Hcycle.
Qed.

Lemma image_failure_stops_loop_witness :
  exists s',
    cycle offline_world start = Raise (LibraryError "ConnectionError") s' /\
    timeline (log s') = timeline (log start) /\
    forall fuel,
      main_loop offline_world (S fuel) start
      = Raise (LibraryError "ConnectionError") s'.
Proof.
  apply (image_failure_stops_loop offline_world three_movies
           (LibraryError "ConnectionError") start).
  - intros n. reflexivity.
  - intros n. reflexivity.
  - intros n url. reflexivity.
  - discriminate.
Defined.

Section Missing.

Variable w : World.
Hypothesis Hmissing : images_missing w.

Lemma images_missing_load : images_load w.
Proof.
  intros n url. destruct (Hmissing n url) as (response & E & Hne).
  exists response. split; [exact E | intros H; contradiction].
Qed.

Lemma fetch_poster_none (url : PyVal) (Q : Event -> Prop) :
  logs (fetch_poster w url) (fun image => image = None) Q.
Proof.
  intros s. exists []. rewrite app_nil_r.
  split; [apply fetch_poster_silent|]. split; [constructor|].
  unfold fetch_poster, bind, ext.
  destruct (Hmissing (calls s) url) as (response & -> & Hne).
  destruct (Z.eqb_spec (status_code response) 200) as [H|_]; [contradiction|].
  intros image s' E. now injection E as <- _.
Qed.

Lemma blit_lines_no_image (lines : list string) :
  forall y, logs (blit_lines lines y) (fun _ => True) draws_no_image.
Proof.
  induction lines as [|line rest IH]; intros y; simpl.
  - now apply logs_ret.
  - eapply logs_bind; [apply logs_emit; split; [reflexivity | exact I] | intros _ _].
    apply IH.
Qed.

Lemma display_info_no_image (d : Dict) :
  frames (display_info w d) draws_no_image (SlideScreen d).
Proof.
  assert (Hemit : forall e, draws_no_image e -> logs (emit e) (fun _ => True) draws_no_image)
    by (intros e He; now apply logs_emit).
  assert (Hfill : draws_no_image (EvFill black)) by (split; [reflexivity | exact I]).
  assert (Htext : forall f t c x y, draws_no_image (EvBlit (DText f t c) x y))
    by (intros; split; [reflexivity | exact I]).
  unfold display_info.
  eapply frames_after; [apply Hemit, Hfill | intros _ _].
  eapply frames_after; [apply logs_silent, dict_item_silent | intros fanart_url _].
  eapply frames_after; [apply fetch_poster_none | intros fanart ->].
  eapply frames_after; [apply Hemit, Hfill | intros _ _].
  eapply frames_after; [apply Hemit; split; [reflexivity | exact I] | intros _ _].
  eapply frames_after; [apply logs_silent, dict_item_silent | intros poster_url _].
  eapply frames_after; [apply fetch_poster_none | intros poster ->].
  eapply (frames_after _ _ (fun _ => True)); [now apply logs_ret | intros _ _].
  eapply frames_after; [apply logs_silent, dict_item_silent | intros title _].
  eapply frames_after; [apply logs_silent, as_text_silent | intros title' _].
  eapply frames_after; [apply Hemit, Htext | intros _ _].
  eapply frames_after; [apply Hemit, Htext | intros _ _].
  eapply frames_after; [apply logs_silent, wrap_description_silent | intros lines _].
  eapply frames_after; [apply blit_lines_no_image | intros y _].
  eapply (frames_after _ _ (fun _ => True)).
  { destruct (is_show_or_season d); [|now apply logs_ret].
    eapply logs_bind; [apply Hemit, Htext | intros _ _].
    eapply logs_bind; [apply Hemit, Htext | intros _ _].
    now apply logs_ret. }
  intros y' _.
  eapply (frames_after _ _ (fun _ => True)).
  { destruct (dict_has "user" d && dict_has "transcode" d); [|now apply logs_ret].
    eapply logs_bind; [apply Hemit, Htext | intros _ _]. apply Hemit, Htext. }
  intros _ _. apply frames_emit.
Qed.

End Missing.



(** X23.  The fallback slide is not all of the entry.  When the show of a
    season or show entry resolves but its seasons cannot be listed, the
    slide has the entry's own title, the placeholder description and zero
    counts, yet the fanart of the show, which the try body had already
    stored when the failure came. *)
Theorem half_resolved_show_slide (w : World) (item : LibraryEntry) (show : Show)
    (e : Exc) (s : State) :
  (forall n, plex_fetchItem w n (show_key item) = inr show) ->
  (forall n, show_seasons w n show = inl e) ->
  exists s',
    show_entry w item s =
    Ok (show_dict (item_title item) (item_thumbUrl item) (show_artUrl show)
          (Some "Description not available"%string) 0 0) s'.
Proof.
  intros Hfetch Hseasons.
  unfold show_entry, try_except, bind at 1, ext. rewrite Hfetch.
  unfold count_seasons_episodes, bind, ext. rewrite Hseasons.
  eexists. reflexivity.
Qed.

Lemma half_resolved_show_slide_witness :
  exists s',
    show_entry seasons_down_world (season_entry "Season 1") start =
    Ok (show_dict "Season 1" (Some "/thumb/Season 1"%string) (Some "/art/show"%string)
          (Some "Description not available"%string) 0 0) s'.
Proof.
  apply (half_resolved_show_slide seasons_down_world (season_entry "Season 1")
           the_show (LibraryError "ConnectionError") start);
    intros; reflexivity.
Defined.
